(** * LuaFormater: [src/lib/lua-utils.ts]

    A shallow embedding of the four text transformations of the module
    ([deleteAllComments], [hasComments], [toOneLiner], [beautifyCode]) and
    of the fragment of the ECMAScript runtime they are written with
    (strings of UTF-16 code units, backtracking regular expressions,
    [String.prototype.replace], [split], [trim], [repeat], [try]/[catch],
    the bound on the length of a string),
    followed by the properties of the specification that were checked
    against them.

    Regular expressions are quoted in the comments as they stand in the
    source, except that a blank is written between a star and a closing
    parenthesis that follows it. *)

From Stdlib Require Import String Ascii NArith ZArith Bool Lia List.
Import ListNotations.

(* ================================================================== *)
(** * Strings of code units *)
(* ================================================================== *)

(** A JavaScript string is a sequence of 16-bit code units; none of the
    regular expressions of the module carries the [u] flag, so matching
    works code unit by code unit. *)
Definition char := N.
Definition str := list char.

(** Text of a source literal (ASCII). *)
Fixpoint js (s : string) : str :=
  match s with
  | EmptyString => []
  | String a s' => N_of_ascii a :: js s'
  end.

Definition TAB : char := 9%N.
Definition LF : char := 10%N.
Definition CR : char := 13%N.
Definition SP : char := 32%N.
Definition DASH : char := 45%N.      (* - *)
Definition EQS : char := 61%N.       (* = *)
Definition LBR : char := 91%N.       (* [ *)
Definition RBR : char := 93%N.       (* ] *)

Definition in_range (lo hi c : char) : bool := (N.leb lo c && N.leb c hi)%bool.

(** ECMAScript [LineTerminator]: LF, CR, U+2028, U+2029. *)
Definition isLineTerminator (c : char) : bool :=
  (N.eqb c 10 || N.eqb c 13 || N.eqb c 8232 || N.eqb c 8233)%N%bool.

(** The class [\s] (and the characters removed by [trim]): ECMAScript
    [WhiteSpace] together with [LineTerminator]. *)
Definition isSpace (c : char) : bool :=
  (N.eqb c 9 || N.eqb c 10 || N.eqb c 11 || N.eqb c 12 || N.eqb c 13
   || N.eqb c 32 || N.eqb c 160 || N.eqb c 5760
   || in_range 8192 8202 c
   || N.eqb c 8232 || N.eqb c 8233 || N.eqb c 8239 || N.eqb c 8287
   || N.eqb c 12288 || N.eqb c 65279)%N%bool.

(** The class [\w] used by [\b]: [A-Za-z0-9_]. *)
Definition isWordChar (c : char) : bool :=
  (in_range 97 122 c || in_range 65 90 c || in_range 48 57 c || N.eqb c 95)%N%bool.

(** [.] without the [s] flag: anything but a line terminator. *)
Definition dot (c : char) : bool := negb (isLineTerminator c).

(** [[\s\S]]. *)
Definition anyChar (c : char) : bool := (isSpace c || negb (isSpace c))%bool.

(** [[\r\n]], [[\r\n\t]], [[ \t]], [[\[=]], [[a-zA-Z_]]. *)
Definition isCRLF (c : char) : bool := (N.eqb c CR || N.eqb c LF)%bool.
Definition isCRLFTab (c : char) : bool := (N.eqb c CR || N.eqb c LF || N.eqb c TAB)%bool.
Definition isBlank (c : char) : bool := (N.eqb c SP || N.eqb c TAB)%bool.
Definition isBrEq (c : char) : bool := (N.eqb c LBR || N.eqb c EQS)%bool.
Definition isIdentStart (c : char) : bool :=
  (in_range 97 122 c || in_range 65 90 c || N.eqb c 95)%N%bool.

Fixpoint starts_with (p s : str) : bool :=
  match p, s with
  | [], _ => true
  | x :: p', y :: s' => (N.eqb x y && starts_with p' s')%bool
  | _ :: _, [] => false
  end.

(* ================================================================== *)
(** * Regular expressions *)
(* ================================================================== *)

(** The constructs that occur in the regular expressions of the module. *)
Inductive regex : Type :=
| Eps                                   (* empty pattern *)
| Chr (p : char -> bool)                (* one character of a class *)
| Seq (r1 r2 : regex)                   (* r1 r2 *)
| Alt (r1 r2 : regex)                   (* r1|r2, left first *)
| Star (greedy : bool) (r : regex)      (* r* and r*? *)
| Group (i : nat) (r : regex)           (* i-th capturing group *)
| Backref (i : nat)                     (* \i *)
| Look (positive : bool) (r : regex)    (* (?=r) and (?!r) *)
| Bol (multiline : bool)                (* ^, with or without the m flag *)
| WordB.                                (* \b *)

Declare Scope regex_scope.
Delimit Scope regex_scope with re.
Bind Scope regex_scope with regex.
Notation "a @@ b" := (Seq a b) (at level 60, right associativity) : regex_scope.

Definition ch (c : char) : regex := Chr (N.eqb c).

Fixpoint Lit (s : str) : regex :=
  match s with
  | [] => Eps
  | c :: s' => Seq (ch c) (Lit s')
  end.

(** [r+] and [r?] (both greedy). *)
Definition Plus (r : regex) : regex := Seq r (Star true r).
Definition Opt (r : regex) : regex := Alt r Eps.

(** A state of the matcher: the character before the current position
    (all that [^] and [\b] look at), the text from the current position
    on, and the captures made so far (most recent first). *)
Record mstate : Type := MState {
  prev : option char;
  rest : str;
  caps : list (nat * str)
}.

Definition advance (c : char) (a : str) (st : mstate) : mstate :=
  MState (Some c) a (caps st).

Fixpoint advance_by (l : str) (st : mstate) : mstate :=
  match l, rest st with
  | c :: l', _ :: a => advance_by l' (advance c a st)
  | _, _ => st
  end.

Fixpoint capture (i : nat) (cs : list (nat * str)) : option str :=
  match cs with
  | [] => None
  | (j, s) :: cs' => if Nat.eqb i j then Some s else capture i cs'
  end.

Definition is_word (o : option char) : bool :=
  match o with Some c => isWordChar c | None => false end.

Definition at_line_start (multiline : bool) (o : option char) : bool :=
  match o with
  | None => true
  | Some c => (multiline && isLineTerminator c)%bool
  end.

(** Iteration of a quantified pattern.  [n] bounds the number of
    iterations by the length of the remaining text: as in ECMAScript's
    RepeatMatcher an iteration that consumes nothing is abandoned. *)
Fixpoint star_loop (step : mstate -> list mstate) (greedy : bool)
         (n : nat) (s : mstate) : list mstate :=
  match n with
  | O => [s]
  | S n' =>
      let more :=
        flat_map (fun s' =>
                    if Nat.ltb (length (rest s')) (length (rest s))
                    then star_loop step greedy n' s' else [])
                 (step s) in
      if greedy then more ++ [s] else s :: more
  end.

(** [run r st]: the states in which a match of [r] started in [st] can
    end, in the order in which a backtracking matcher tries them.  The
    first one is the match JavaScript reports. *)
Fixpoint run (r : regex) (st : mstate) : list mstate :=
  match r with
  | Eps => [st]
  | Chr p =>
      match rest st with
      | c :: a => if p c then [advance c a st] else []
      | [] => []
      end
  | Seq r1 r2 => flat_map (run r2) (run r1 st)
  | Alt r1 r2 => run r1 st ++ run r2 st
  | Star g r1 => star_loop (run r1) g (length (rest st)) st
  | Group i r1 =>
      map (fun s' =>
             MState (prev s') (rest s')
                    ((i, firstn (length (rest st) - length (rest s')) (rest st))
                       :: caps s'))
          (run r1 st)
  | Backref i =>
      match capture i (caps st) with
      | None => [st]
      | Some l => if starts_with l (rest st) then [advance_by l st] else []
      end
  | Look true r1 =>
      match run r1 st with
      | [] => []
      | s' :: _ => [MState (prev st) (rest st) (caps s')]
      end
  | Look false r1 =>
      match run r1 st with
      | [] => [st]
      | _ :: _ => []
      end
  | Bol m => if at_line_start m (prev st) then [st] else []
  | WordB =>
      if xorb (is_word (prev st)) (is_word (hd_error (rest st)))
      then [st] else []
  end.

(** One attempt at one position: [o] is the character before the
    position, [a] the text from it. *)
Definition exec (r : regex) (o : option char) (a : str) : option mstate :=
  hd_error (run r (MState o a [])).

(** What a replacement sees of a match: the matched text and the groups. *)
Record match_info : Type := MatchInfo {
  matched : str;
  groups : list (nat * str)
}.

Definition info_of (a : str) (st : mstate) : match_info :=
  MatchInfo (firstn (length a - length (rest st)) a) (caps st).

Definition group (i : nat) (m : match_info) : str :=
  match capture i (groups m) with Some s => s | None => [] end.

(** [RegExp.prototype.test] (no [g] flag): is there a position, from the
    left, at which the pattern matches. *)
Fixpoint test_from (r : regex) (o : option char) (a : str) : bool :=
  match exec r o a with
  | Some _ => true
  | None =>
      match a with
      | [] => false
      | c :: a' => test_from r (Some c) a'
      end
  end.

Definition test (r : regex) (s : str) : bool := test_from r None s.

(** [String.prototype.replace] with a [g] pattern: the matches are found
    from the left, each search starting where the previous match ended
    (one character further after an empty match); the text between the
    matches is copied and every match is replaced by [f] of it.
    [skip] counts the characters of the current match still to pass. *)
Fixpoint replace_from (r : regex) (f : match_info -> str)
         (skip : nat) (o : option char) (a : str) : str :=
  match skip with
  | S k =>
      match a with
      | [] => []
      | c :: a' => replace_from r f k (Some c) a'
      end
  | O =>
      match exec r o a with
      | Some st =>
          f (info_of a st) ++
          match a with
          | [] => []
          | c :: a' =>
              match length a - length (rest st) with
              | O => c :: replace_from r f 0 (Some c) a'
              | S k => replace_from r f k (Some c) a'
              end
          end
      | None =>
          match a with
          | [] => []
          | c :: a' => c :: replace_from r f 0 (Some c) a'
          end
      end
  end.

Definition replace (r : regex) (f : match_info -> str) (s : str) : str :=
  replace_from r f 0 None s.

(** [String.prototype.split] with a one-character separator. *)
Fixpoint split (sep : char) (s : str) : list str :=
  match s with
  | [] => [[]]
  | c :: s' =>
      if N.eqb c sep then [] :: split sep s'
      else match split sep s' with
           | l :: ls => (c :: l) :: ls
           | [] => [[c]]
           end
  end.

(** [String.prototype.trim]. *)
Fixpoint trimStart (s : str) : str :=
  match s with
  | c :: s' => if isSpace c then trimStart s' else s
  | [] => []
  end.

Definition trimEnd (s : str) : str := rev (trimStart (rev s)).
Definition trim (s : str) : str := trimEnd (trimStart s).

(** Completions: a call returns a value or throws. *)
Inductive error : Type := RangeError.

Inductive completion (A : Type) : Type :=
| Normal (a : A)
| Throw (e : error).
Arguments Normal {A} a.
Arguments Throw {A} e.

Definition bind {A B : Type} (c : completion A) (k : A -> completion B)
  : completion B :=
  match c with
  | Normal a => k a
  | Throw e => Throw e
  end.

Notation "x <- c ;; k" := (bind c (fun x => k))
  (at level 61, c at next level, right associativity).

(** [try { body } catch (e) { handler }]. *)
Definition try_catch {A : Type} (body : completion A)
           (handler : error -> completion A) : completion A :=
  match body with
  | Normal a => Normal a
  | Throw e => handler e
  end.

(** The length of a string is bounded by the engine: building a longer
    one throws "RangeError: Invalid string length".  ECMAScript leaves
    the bound to the implementation; V8 on 64-bit platforms allows
    2^29 - 24 code units.  The operations below take the bound as
    [maxLength].  They are used in [beautifyCode], whose [try] block is
    where the module catches the error; the other functions are modelled
    on texts whose results stay within the bound. *)
Definition maxStringLength : N := 536870888%N.

Definition alloc (maxLength : N) (s : str) : completion str :=
  if N.leb (N.of_nat (length s)) maxLength then Normal s
  else Throw RangeError.

(** The operator "+" on strings. *)
Definition str_plus (maxLength : N) (a b : str) : completion str :=
  alloc maxLength (a ++ b).

(** [String.prototype.repeat]: a RangeError for a negative count and
    for a result that is too long. *)
Definition repeat_str (maxLength : N) (s : str) (count : Z) : completion str :=
  if Z.ltb count 0 then Throw RangeError
  else alloc maxLength (concat (repeat s (Z.to_nat count))).

(** [String.prototype.replace] with a global pattern, as a call that
    can fail: the receiver is returned when nothing matches, a new
    string is built otherwise. *)
Definition replace_str (maxLength : N) (r : regex) (f : match_info -> str)
           (s : str) : completion str :=
  if test r s then alloc maxLength (replace r f s) else Normal s.

(* ================================================================== *)
(** * The module [lua-utils.ts] *)
(* ================================================================== *)

Local Open Scope regex_scope.
Local Open Scope list_scope.

(** ** Comment detector and stripper *)

(** The literal "/--\[(=* )\[[\s\S]*?\]\1\]/" of [deleteAllComments]
    (there with the g flag) and of [hasComments]. *)
Definition multiLineRegex : regex :=
  Lit (js "--[") @@ Group 1 (Star true (ch EQS)) @@ ch LBR
      @@ Star false (Chr anyChar) @@ ch RBR @@ Backref 1 @@ ch RBR.

(** The lookahead "(?![\[=]*\[)" shared by the two single-line patterns. *)
Definition notLongStart : regex :=
  Look false (Star true (Chr isBrEq) @@ ch LBR).

(** "/--(?![\[=]*\[).*/g" of [deleteAllComments]. *)
Definition singleLineSpan : regex :=
  Lit (js "--") @@ notLongStart @@ Star true (Chr dot).

(** "/--(?![\[=]*\[)/" of [hasComments]. *)
Definition singleLineRegex : regex :=
  Lit (js "--") @@ notLongStart.

(** "/^\s*[\r\n]/gm". *)
Definition emptyLine : regex :=
  Bol true @@ Star true (Chr isSpace) @@ Chr isCRLF.

Definition strip (r : regex) (s : str) : str := replace r (fun _ => []) s.

Definition deleteAllComments (code : str) : str :=
  let result := strip multiLineRegex code in
  let result := strip singleLineSpan result in
  let result := strip emptyLine result in
  result.

Definition hasComments (code : str) : bool :=
  test multiLineRegex code || test singleLineRegex code.

(** ** Line collapser *)

Inductive commentOption : Type := preserve | delete.

(** "/--[ \t]*(?!\[(?:=|\[)?)(.* )/g". *)
Definition lineComment : regex :=
  Lit (js "--") @@ Star true (Chr isBlank)
      @@ Look false (ch LBR @@ Opt (Alt (ch EQS) (ch LBR)))
      @@ Group 1 (Star true (Chr dot)).

(** The callback [(match, content) => ...] of the [preserve] branch. *)
Definition toBlockComment (m : match_info) : str :=
  let trimmed := trim (group 1 m) in
  match trimmed with
  | [] => []
  | _ :: _ => js " --[[ " ++ trimmed ++ js " ]] "
  end.

(** "/[\r\n\t]+/g" and "/\s{2,}/g". *)
Definition lineBreaks : regex := Plus (Chr isCRLFTab).
Definition spaceRun : regex := Chr isSpace @@ Chr isSpace @@ Star true (Chr isSpace).

Definition collapse (s : str) : str :=
  trim (replace spaceRun (fun _ => [SP]) (replace lineBreaks (fun _ => [SP]) s)).

(** The [replace] of the [preserve] branch. *)
Definition preserveComments (code : str) : str :=
  replace lineComment toBlockComment code.

Definition toOneLiner (code : str) (opt : commentOption) : str :=
  let oneLiner :=
    match opt with
    | delete => deleteAllComments code
    | preserve => preserveComments code
    end in
  collapse oneLiner.

(** ** String reverser *)

Definition reverseCode (code : str) : str := rev code.

(** ** Heuristic beautifier *)

Fixpoint Alts (l : list str) : regex :=
  match l with
  | [] => Look false Eps
  | [s] => Lit s
  | s :: l' => Alt (Lit s) (Alts l')
  end.

(** "/;/g", "/\)\s*(?=[a-zA-Z_])/g", "/\b(then|do)\b/g" and
    "/\b(end|else|elseif|until)\b/g". *)
Definition semicolon : regex := ch 59%N.
Definition closeParen : regex :=
  ch 41%N @@ Star true (Chr isSpace) @@ Look true (Chr isIdentStart).
Definition thenDo : regex :=
  WordB @@ Group 1 (Alts [js "then"; js "do"]) @@ WordB.
Definition closers : list str := [js "end"; js "else"; js "elseif"; js "until"].
Definition blockEnd : regex := WordB @@ Group 1 (Alts closers) @@ WordB.

(** "/^(end|else|elseif|until)\b/",
    "/\b(function|if|while|for|repeat|do|then)\b/", "/\b(end)\b/" and
    "/^(else|elseif)\b/". *)
Definition startsWithCloser : regex := Bol false @@ Group 1 (Alts closers) @@ WordB.
Definition openers : list str :=
  [js "function"; js "if"; js "while"; js "for"; js "repeat"; js "do"; js "then"].
Definition hasOpener : regex := WordB @@ Group 1 (Alts openers) @@ WordB.
Definition hasEnd : regex := WordB @@ Group 1 (Lit (js "end")) @@ WordB.
Definition startsWithElse : regex :=
  Bol false @@ Group 1 (Alts [js "else"; js "elseif"]) @@ WordB.

(** "/\n\s*\n/g". *)
Definition blankOutput : regex := ch LF @@ Star true (Chr isSpace) @@ ch LF.

Definition indentChar : str := js "  ".

(** The four [replace] calls that break up one-liners. *)
Definition processedCode (maxLength : N) (code : str) : completion str :=
  s1 <- replace_str maxLength semicolon (fun _ => js ";" ++ [LF]) code ;;
  s2 <- replace_str maxLength closeParen (fun _ => js ")" ++ [LF]) s1 ;;
  s3 <- replace_str maxLength thenDo (fun m => group 1 m ++ [LF]) s2 ;;
  replace_str maxLength blockEnd (fun m => LF :: group 1 m) s3.

(** The state of the [for] loop: [indentLevel] and [formatted]. *)
Definition loop_state : Type := (Z * str)%type.

(** One iteration of [for (let line of lines)].  The statement
    [formatted += indentChar.repeat(indentLevel) + line + '\n'] builds
    four strings, each of which can be too long. *)
Definition loop_body (maxLength : N) (st : loop_state) (line0 : str)
  : completion loop_state :=
  let '(indentLevel, formatted) := st in
  let line := trim line0 in
  match line with
  | [] => Normal st                                   (* continue *)
  | _ :: _ =>
      let indentLevel :=
        if test startsWithCloser line
        then Z.max 0 (indentLevel - 1) else indentLevel in
      pad <- repeat_str maxLength indentChar indentLevel ;;
      padded <- str_plus maxLength pad line ;;
      ended <- str_plus maxLength padded [LF] ;;
      formatted <- str_plus maxLength formatted ended ;;
      let indentLevel :=
        if test hasOpener line
        then if negb (test hasEnd line)
             then if negb (test startsWithElse line)
                  then (indentLevel + 1)%Z else indentLevel
             else indentLevel
        else indentLevel in
      Normal (indentLevel, formatted)
  end.

Fixpoint for_of (maxLength : N) (lines : list str) (st : loop_state)
  : completion loop_state :=
  match lines with
  | [] => Normal st
  | line :: rest => st' <- loop_body maxLength st line ;; for_of maxLength rest st'
  end.

(** The body of the [try] block. *)
Definition beautify_try (maxLength : N) (code : str) : completion str :=
  let indentLevel : Z := 0%Z in
  processed <- processedCode maxLength code ;;
  let lines := split LF processed in
  let formatted : str := [] in
  st <- for_of maxLength lines (indentLevel, formatted) ;;
  out <- replace_str maxLength blankOutput (fun _ => [LF]) (snd st) ;;
  Normal (trim out).

(** [try { ... } catch (e) { console.error(...); return code }]:
    [console.error] writes to the diagnostics sink and returns; the
    handler then returns the input. *)
Definition beautifyCode_within (maxLength : N) (code : str) : completion str :=
  try_catch (beautify_try maxLength code) (fun _ => Normal code).

Definition beautifyCode (code : str) : completion str :=
  beautifyCode_within maxStringLength code.

(* ================================================================== *)
(** * Notions used to state and prove the properties *)
(* ================================================================== *)

(** ** Parts of the patterns *)

(** In [multiLineRegex]: the closing bracket "\]\1\]", the body
    "[\s\S]*?" with it, and the level "(=* )\[" with both. *)
Definition closing : regex := ch RBR @@ Backref 1 @@ ch RBR.
Definition body_closing : regex := Star false (Chr anyChar) @@ closing.
Definition level_body : regex :=
  Group 1 (Star true (ch EQS)) @@ ch LBR @@ body_closing.

(** In [lineComment]: the lookahead "(?!\[(?:=|\[)?)" and the group
    "(.* )". *)
Definition bracketGuard : regex :=
  Look false (ch LBR @@ Opt (Alt (ch EQS) (ch LBR))).
Definition content : regex := Group 1 (Star true (Chr dot)).

(** ** Matches *)

(** The character before the position reached after reading [l]. *)
Definition after_text (l : str) (o : option char) : option char :=
  fold_left (fun _ c => Some c) l o.

(** A pattern that cannot match the empty text. *)
Fixpoint consumes (r : regex) : bool :=
  match r with
  | Chr _ => true
  | Seq r1 r2 => consumes r1 || consumes r2
  | Alt r1 r2 => consumes r1 && consumes r2
  | Group _ r1 => consumes r1
  | _ => false
  end.

(** [st'] is reached from [st] by reading [l]. *)
Definition reads (l : str) (st st' : mstate) : Prop :=
  rest st = l ++ rest st' /\ prev st' = after_text l (prev st).

Definition nonempty {A : Type} (l : list A) : bool :=
  match l with [] => false | _ :: _ => true end.

(** [replace] with the empty replacement, from a position inside the
    text. *)
Definition del (r : regex) (o : option char) (a : str) : str :=
  replace_from r (fun _ => []) 0 o a.

(** The indent level after a line: lowered first by a closing keyword at
    the head of the line, raised afterwards by an opening keyword unless
    the line holds the word "end" or starts with "else" or "elseif". *)
Definition level_before (indentLevel : Z) (line : str) : Z :=
  if test startsWithCloser line then Z.max 0 (indentLevel - 1) else indentLevel.

Definition level_after (indentLevel : Z) (line : str) : Z :=
  if test hasOpener line
  then if negb (test hasEnd line)
       then if negb (test startsWithElse line)
            then (indentLevel + 1)%Z else indentLevel
       else indentLevel
  else indentLevel.

(* ================================================================== *)
(** * The vocabulary of the specification *)
(* ================================================================== *)

(** A long-bracket comment of level [n] opens with "--[", [n] equals
    signs and "[", and closes with "]", [n] equals signs and "]". *)
Definition eqs (n : nat) : str := repeat EQS n.
Definition opener (n : nat) : str := js "--[" ++ eqs n ++ [LBR].
Definition closer (n : nat) : str := RBR :: eqs n ++ [RBR].

(** The text contains a complete long-bracket comment. *)
Definition HasLong (s : str) : Prop :=
  exists x n body y, s = x ++ opener n ++ body ++ closer n ++ y.

(** The text begins with zero or more equals signs and then "[". *)
Fixpoint long_start (x : str) : bool :=
  match x with
  | [] => false
  | c :: x' =>
      if N.eqb c LBR then true
      else if N.eqb c EQS then long_start x' else false
  end.

(** The text contains "--" not followed by equals signs and "[". *)
Definition HasSingle (s : str) : Prop :=
  exists x y, s = x ++ DASH :: DASH :: y /\ long_start y = false.

(** The text from the first line terminator on. *)
Fixpoint skip_line (x : str) : str :=
  match x with
  | [] => []
  | c :: x' => if dot c then skip_line x' else x
  end.

(** The text up to the first line terminator. *)
Fixpoint line_of (x : str) : str :=
  match x with
  | [] => []
  | c :: x' => if dot c then c :: line_of x' else []
  end.

(** The positions at which [p] occurs in [s], counted from [i]. *)
Fixpoint occurrences_from (i : nat) (p s : str) : list nat :=
  (if starts_with p s then [i] else []) ++
  match s with
  | [] => []
  | _ :: s' => occurrences_from (S i) p s'
  end.

Definition occurrences (p s : str) : list nat := occurrences_from 0 p s.

Definition occurs (p s : str) : bool :=
  match occurrences p s with [] => false | _ :: _ => true end.

(** The level of the long-bracket opener at the head of [s], if any,
    with the text behind the opener. *)
Fixpoint opener_level (n : nat) (s : str) : option (nat * str) :=
  match s with
  | [] => None
  | c :: s' =>
      if N.eqb c LBR then Some (n, s')
      else if N.eqb c EQS then opener_level (S n) s' else None
  end.

Definition opener_at (s : str) : option (nat * str) :=
  if starts_with (js "--[") s then opener_level 0 (skipn 3 s) else None.

(** Every long-bracket opener of the text has a matching closer behind
    it: "only well-terminated comments". *)
Fixpoint well_terminated (s : str) : bool :=
  match s with
  | [] => true
  | _ :: s' =>
      match opener_at s with
      | Some (n, behind) => occurs (closer n) behind
      | None => true
      end && well_terminated s'
  end.

(** A line is blank when it is empty or holds only white space; the
    lines of a text are what stands between its carriage returns and
    line feeds. *)
Definition blank (l : str) : bool := forallb isSpace l.

Fixpoint lines (s : str) : list str :=
  match s with
  | [] => [[]]
  | c :: s' =>
      if isCRLF c then [] :: lines s'
      else match lines s' with
           | l :: ls => (c :: l) :: ls
           | [] => [[c]]
           end
  end.

(** The replacement for a single-line comment with content [t]. *)
Definition block_comment (t : str) : str :=
  match t with
  | [] => []
  | _ :: _ => js " --[[ " ++ t ++ js " ]] "
  end.

(** What follows "--" in a long-bracket opener: "[", equals signs, "[". *)
Definition OpensLong (y : str) : Prop :=
  exists n z, y = LBR :: eqs n ++ LBR :: z.

(** What the lookahead of the single-line patterns looks for: equals
    signs, "[". *)
Definition EqsBracket (y : str) : Prop :=
  exists k z, y = eqs k ++ LBR :: z.

(** The text contains "--" that does not begin a long-bracket opener. *)
Definition HasLineComment (s : str) : Prop :=
  exists x y, s = x ++ DASH :: DASH :: y /\ ~ OpensLong y.

(** No character of the text is [c]. *)
Definition free_of (c : char) (l : str) : bool :=
  forallb (fun d : char => negb (N.eqb d c)) l.

(** From the position reached after [x] (with [o] before the text), the
    text goes on with a blank line that a carriage return or a line feed
    ends: the position is the start of a line, and white space [w] and
    then [c] follow. *)
Definition BlankLineFrom (o : option char) (s : str) : Prop :=
  exists x w c y,
    s = x ++ w ++ c :: y /\
    at_line_start true (after_text x o) = true /\
    blank w = true /\ isCRLF c = true.

Definition BlankLineIn (s : str) : Prop := BlankLineFrom None s.

(** No line of the text is blank. *)
Definition NoBlankLine (s : str) : Prop :=
  forall l, In l (lines s) -> blank l = false.

(* ================================================================== *)
(** * Notions for the further properties *)
(* ================================================================== *)

(** [a] is [b] with some characters left out. *)
Inductive Subseq : str -> str -> Prop :=
| Subseq_nil : Subseq [] []
| Subseq_keep c a b : Subseq a b -> Subseq (c :: a) (c :: b)
| Subseq_drop c a b : Subseq a b -> Subseq a (c :: b).

(** The text without its white space. *)
Definition visible (s : str) : str := filter (fun c => negb (isSpace c)) s.

(** No two white-space characters stand side by side. *)
Fixpoint single_spaced (s : str) : bool :=
  match s with
  | c :: (d :: _) as s' => negb (isSpace c && isSpace d) && single_spaced s'
  | _ => true
  end.

(** The text neither starts nor ends with white space. *)
Definition starts_solid (s : str) : bool :=
  match s with [] => true | c :: _ => negb (isSpace c) end.

Definition trimmed (s : str) : bool := starts_solid s && starts_solid (rev s).

(** The pattern reads only characters of the class [q]. *)
Fixpoint reads_only (q : char -> bool) (r : regex) : Prop :=
  match r with
  | Eps | Bol _ | WordB | Look _ _ => True
  | Chr p => forall c, p c = true -> q c = true
  | Seq r1 r2 | Alt r1 r2 => reads_only q r1 /\ reads_only q r2
  | Star _ r1 | Group _ r1 => reads_only q r1
  | Backref _ => False
  end.




(* ================================================================== *)
(** * Properties *)
(* ================================================================== *)

Local Arguments N.eqb : simpl never.
Local Arguments N.leb : simpl never.

(** ** The scenarios of the specification, by evaluation *)

Example deleteAllComments_line_comment :
  deleteAllComments (js "local x = 1 -- comment" ++ [LF] ++ js "print(x)") =
  js "local x = 1 " ++ [LF] ++ js "print(x)".
Proof. reflexivity. Qed.

Example deleteAllComments_shortest_span :
  deleteAllComments (js "--[[ a ]] code --[[ b ]]") = js " code ".
Proof. reflexivity. Qed.

Example deleteAllComments_comment_lines :
  deleteAllComments (js "a = 1" ++ [LF] ++ js "  -- gone" ++ [LF] ++ js "b = 2") =
  js "a = 1" ++ [LF] ++ js "b = 2".
Proof. reflexivity. Qed.

Example hasComments_cases :
  hasComments (js "x = 1 -- c") = true /\
  hasComments (js "x --[=[ c ]=] y") = true /\
  hasComments (js "x = a - b") = false /\
  hasComments (js "--[[ open") = false.
Proof. repeat split. Qed.

Example toOneLiner_preserve_note :
  toOneLiner (js "if x then -- note" ++ [LF] ++ js "print(1)" ++ [LF] ++ js "end")
             preserve =
  js "if x then --[[ note ]] print(1) end".
Proof. reflexivity. Qed.

Example toOneLiner_delete_note :
  toOneLiner (js "if x then -- note" ++ [LF] ++ [TAB] ++ js "print(1)" ++ [LF] ++ js "end")
             delete =
  js "if x then print(1) end".
Proof. reflexivity. Qed.

Example beautifyCode_empty : beautifyCode [] = Normal [].
Proof. reflexivity. Qed.

Example beautifyCode_nested :
  beautifyCode (js "while a do if b then c() end end") =
  Normal (js "while a do" ++ [LF] ++ js "  if b then" ++ [LF]
          ++ js "    c()" ++ [LF] ++ js "  end" ++ [LF] ++ js "end").
Proof. reflexivity. Qed.

Lemma reverseCode_involutive (code : str) : reverseCode (reverseCode code) = code.
Proof. apply rev_involutive. Qed.

(** ** The matcher on the quantified classes of the module *)

Section StarOfClass.
Variable p : char -> bool.
Variable k : regex.

Lemma run_star_nil g o cs :
  run (Star g (Chr p)) (MState o [] cs) = [MState o [] cs].
Proof. reflexivity. Qed.

Lemma run_star_greedy o c a cs :
  run (Star true (Chr p)) (MState o (c :: a) cs) =
  if p c
  then run (Star true (Chr p)) (MState (Some c) a cs) ++ [MState o (c :: a) cs]
  else [MState o (c :: a) cs].
Proof.
  cbn [run rest length star_loop flat_map caps].
  destruct (p c); cbn [flat_map app]; [|reflexivity].
  unfold advance; cbn [rest caps length].
  replace (length a <? S (length a)) with true
    by (symmetry; apply Nat.ltb_lt; lia).
  rewrite app_nil_r. reflexivity.
Qed.

Lemma run_star_lazy o c a cs :
  run (Star false (Chr p)) (MState o (c :: a) cs) =
  MState o (c :: a) cs ::
  (if p c then run (Star false (Chr p)) (MState (Some c) a cs) else []).
Proof.
  cbn [run rest length star_loop flat_map caps].
  destruct (p c); cbn [flat_map app]; [|reflexivity].
  unfold advance; cbn [rest caps length].
  replace (length a <? S (length a)) with true
    by (symmetry; apply Nat.ltb_lt; lia).
  rewrite app_nil_r. reflexivity.
Qed.

(** A greedy class followed by [k]: the longer runs are tried first. *)
Lemma run_greedy_then o c a cs :
  run (Star true (Chr p) @@ k) (MState o (c :: a) cs) =
  (if p c then run (Star true (Chr p) @@ k) (MState (Some c) a cs) else [])
    ++ run k (MState o (c :: a) cs).
Proof.
  change (run (Star true (Chr p) @@ k) ?s)
    with (flat_map (run k) (run (Star true (Chr p)) s)).
  rewrite run_star_greedy. destruct (p c).
  - rewrite flat_map_app. cbn [flat_map]. rewrite app_nil_r. reflexivity.
  - cbn [flat_map app]. rewrite app_nil_r. reflexivity.
Qed.

Lemma run_greedy_then_nil o cs :
  run (Star true (Chr p) @@ k) (MState o [] cs) = run k (MState o [] cs).
Proof. cbn. rewrite app_nil_r. reflexivity. Qed.

(** A lazy class followed by [k]: the shorter runs are tried first. *)
Lemma run_lazy_then o c a cs :
  run (Star false (Chr p) @@ k) (MState o (c :: a) cs) =
  run k (MState o (c :: a) cs)
    ++ (if p c then run (Star false (Chr p) @@ k) (MState (Some c) a cs) else []).
Proof.
  change (run (Star false (Chr p) @@ k) ?s)
    with (flat_map (run k) (run (Star false (Chr p)) s)).
  rewrite run_star_lazy. cbn [flat_map]. destruct (p c); reflexivity.
Qed.

Lemma run_lazy_then_nil o cs :
  run (Star false (Chr p) @@ k) (MState o [] cs) = run k (MState o [] cs).
Proof. cbn. rewrite app_nil_r. reflexivity. Qed.
End StarOfClass.

Lemma run_seq r1 r2 st : run (r1 @@ r2) st = flat_map (run r2) (run r1 st).
Proof. reflexivity. Qed.

Lemma run_ch_cons c k o d a cs :
  run (ch c @@ k) (MState o (d :: a) cs) =
  if N.eqb c d then run k (MState (Some d) a cs) else [].
Proof.
  cbn. destruct (N.eqb c d); cbn; [rewrite app_nil_r|]; reflexivity.
Qed.

Lemma run_ch_nil c k o cs : run (ch c @@ k) (MState o [] cs) = [].
Proof. reflexivity. Qed.

Lemma run_chr_cons p k o d a cs :
  run (Chr p @@ k) (MState o (d :: a) cs) =
  if p d then run k (MState (Some d) a cs) else [].
Proof.
  cbn. destruct (p d); cbn; [rewrite app_nil_r|]; reflexivity.
Qed.

(** ** What every match looks like *)

Lemma after_text_app l1 l2 o :
  after_text (l1 ++ l2) o = after_text l2 (after_text l1 o).
Proof. apply fold_left_app. Qed.

Lemma after_text_cons c l o : after_text (c :: l) o = after_text l (Some c).
Proof. reflexivity. Qed.

Lemma after_text_last l c o : after_text (l ++ [c]) o = Some c.
Proof. rewrite after_text_app. reflexivity. Qed.

Lemma reads_refl st : reads [] st st.
Proof. split; reflexivity. Qed.

Lemma reads_trans l1 l2 s1 s2 s3 :
  reads l1 s1 s2 -> reads l2 s2 s3 -> reads (l1 ++ l2) s1 s3.
Proof.
  intros [H1 H2] [H3 H4]. split.
  - rewrite H1, H3, app_assoc. reflexivity.
  - rewrite H4, H2, after_text_app. reflexivity.
Qed.

Lemma starts_with_app l a :
  starts_with l a = true -> exists a', a = l ++ a'.
Proof.
  revert a; induction l as [|x l IH]; intros a H.
  - exists a. reflexivity.
  - destruct a as [|y a]; [discriminate|]. cbn in H.
    apply andb_prop in H. destruct H as [Hx Hl].
    apply N.eqb_eq in Hx. subst y.
    destruct (IH _ Hl) as [a' ->]. exists a'. reflexivity.
Qed.

Lemma starts_with_prefix l a : starts_with l (l ++ a) = true.
Proof.
  induction l as [|x l IH]; [reflexivity|].
  cbn. rewrite N.eqb_refl. exact IH.
Qed.

Lemma advance_by_app l o a cs :
  advance_by l (MState o (l ++ a) cs) = MState (after_text l o) a cs.
Proof.
  revert o; induction l as [|x l IH]; intros o.
  - cbn. destruct a; reflexivity.
  - cbn [app advance_by rest]. unfold advance. cbn [caps].
    rewrite IH. reflexivity.
Qed.

Lemma run_Lit l o a cs :
  run (Lit l) (MState o a cs) =
  if starts_with l a then [advance_by l (MState o a cs)] else [].
Proof.
  revert o a; induction l as [|x l IH]; intros o a.
  - cbn. destruct a; reflexivity.
  - destruct a as [|y a]; [reflexivity|].
    change (Lit (x :: l)) with (ch x @@ Lit l).
    rewrite run_ch_cons. cbn [starts_with].
    destruct (N.eqb x y) eqn:E; [|reflexivity].
    apply N.eqb_eq in E. subst y.
    rewrite IH. cbn [andb]. destruct (starts_with l a); reflexivity.
Qed.

Lemma run_Lit_then l k o a cs :
  run (Lit l @@ k) (MState o (l ++ a) cs) = run k (MState (after_text l o) a cs).
Proof.
  rewrite run_seq, run_Lit, starts_with_prefix, advance_by_app.
  cbn. apply app_nil_r.
Qed.

Lemma run_Lit_then_fail l k o a cs :
  starts_with l a = false -> run (Lit l @@ k) (MState o a cs) = [].
Proof. intros H. rewrite run_seq, run_Lit, H. reflexivity. Qed.

Lemma star_loop_sound (step : mstate -> list mstate) g :
  (forall st st', In st' (step st) -> exists l, reads l st st') ->
  forall n st st', In st' (star_loop step g n st) -> exists l, reads l st st'.
Proof.
  intros Hstep n; induction n as [|n IH]; intros st st' H.
  - cbn in H. destruct H as [<-|[]]. exists []. apply reads_refl.
  - cbn in H.
    assert (In st' [st] \/
            In st' (flat_map (fun s' =>
                      if length (rest s') <? length (rest st)
                      then star_loop step g n s' else []) (step st))) as [H1|H1].
    { destruct g.
      - apply in_app_or in H. tauto.
      - destruct H as [H|H]; [left; left; exact H|right; exact H]. }
    + destruct H1 as [<-|[]]. exists []. apply reads_refl.
    + apply in_flat_map in H1. destruct H1 as (s1 & Hs1 & Hin).
      destruct (length (rest s1) <? length (rest st)); [|destruct Hin].
      destruct (Hstep _ _ Hs1) as [l1 R1].
      destruct (IH _ _ Hin) as [l2 R2].
      exists (l1 ++ l2). eapply reads_trans; eassumption.
Qed.

(** Every end state of a match is reached by reading a prefix of the
    text, a non-empty one when the pattern consumes. *)
Lemma run_sound r : forall st st',
  In st' (run r st) ->
  exists l, reads l st st' /\ (consumes r = true -> l <> []).
Proof.
  induction r as [|p|r1 IH1 r2 IH2|r1 IH1 r2 IH2|g r1 IH1|i r1 IH1|i|b r1 IH1|m|];
    intros st st' H.
  - destruct H as [<-|[]]. exists []. split; [apply reads_refl|discriminate].
  - cbn in H. destruct (rest st) as [|c a] eqn:E; [destruct H|].
    destruct (p c); [|destruct H]. destruct H as [<-|[]].
    exists [c]. split; [|discriminate]. split; cbn; [exact E|reflexivity].
  - cbn in H. apply in_flat_map in H. destruct H as (s1 & H1 & H2).
    destruct (IH1 _ _ H1) as (l1 & R1 & N1).
    destruct (IH2 _ _ H2) as (l2 & R2 & N2).
    exists (l1 ++ l2). split; [eapply reads_trans; eassumption|].
    cbn. intros Hc Hnil. apply app_eq_nil in Hnil. destruct Hnil.
    apply orb_prop in Hc. destruct Hc; [apply N1|apply N2]; assumption.
  - cbn in H. apply in_app_or in H. cbn.
    destruct H as [H|H]; [destruct (IH1 _ _ H) as (l & R & N)
                         |destruct (IH2 _ _ H) as (l & R & N)];
      exists l; (split; [exact R|]); intros Hc; apply andb_prop in Hc;
      apply N; tauto.
  - cbn in H.
    assert (Hstep : forall s s', In s' (run r1 s) -> exists l, reads l s s').
    { intros s s' Hs. destruct (IH1 _ _ Hs) as (l & Hl & _). exists l. exact Hl. }
    destruct (@star_loop_sound _ _ Hstep _ _ _ H) as [l R].
    exists l. split; [exact R|discriminate].
  - cbn in H. apply in_map_iff in H. destruct H as (s1 & <- & H1).
    destruct (IH1 _ _ H1) as (l & [R1 R2] & N).
    exists l. split; [split; assumption|exact N].
  - cbn in H. destruct (capture i (caps st)) as [l|].
    + destruct (starts_with l (rest st)) eqn:E; [|destruct H].
      destruct H as [<-|[]]. exists l. split; [|discriminate].
      destruct (@starts_with_app _ _ E) as [a' Ha].
      destruct st as [o a cs]. cbn in Ha. subst a.
      rewrite advance_by_app. split; reflexivity.
    + destruct H as [<-|[]]. exists []. split; [apply reads_refl|discriminate].
  - exists []. split; [|discriminate]. cbn in H.
    destruct b; destruct (run r1 st); cbn in H; try contradiction;
      destruct H as [<-|[]]; split; reflexivity.
  - exists []. split; [|discriminate]. cbn in H.
    destruct (at_line_start m (prev st)); cbn in H; try contradiction;
      destruct H as [<-|[]]; apply reads_refl.
  - exists []. split; [|discriminate]. cbn in H.
    destruct (xorb _ _); cbn in H; try contradiction;
      destruct H as [<-|[]]; apply reads_refl.
Qed.

Lemma exec_sound r o a st :
  exec r o a = Some st ->
  exists l, a = l ++ rest st /\ prev st = after_text l o /\
            (consumes r = true -> l <> []).
Proof.
  unfold exec. intros H.
  destruct (run r (MState o a [])) as [|s l0] eqn:E; [discriminate|].
  injection H as ->.
  destruct (@run_sound r (MState o a []) st) as (l & [R1 R2] & N).
  { rewrite E. left. reflexivity. }
  exists l. auto.
Qed.

Lemma exec_nil r o : consumes r = true -> exec r o [] = None.
Proof.
  intros Hc. destruct (exec r o []) as [st|] eqn:E; [|reflexivity].
  destruct (@exec_sound _ _ _ _ E) as (l & Ha & _ & N).
  destruct l; [exfalso; apply (N Hc); reflexivity|discriminate].
Qed.

(** ** The scan of [replace] and of [test] *)

Lemma replace_from_skip r f l o a :
  replace_from r f (length l) o (l ++ a) = replace_from r f 0 (after_text l o) a.
Proof.
  revert o; induction l as [|c l IH]; intros o; [reflexivity|].
  cbn [length app replace_from]. apply IH.
Qed.

Lemma replace_from_nil r f o :
  consumes r = true -> replace_from r f 0 o [] = [].
Proof. intros Hc. cbn. rewrite (@exec_nil r o Hc). reflexivity. Qed.

Lemma replace_from_keep r f o c a :
  exec r o (c :: a) = None ->
  replace_from r f 0 o (c :: a) = c :: replace_from r f 0 (Some c) a.
Proof. intros H. cbn [replace_from]. rewrite H. reflexivity. Qed.

Lemma replace_from_match r f o a st :
  consumes r = true ->
  exec r o a = Some st ->
  exists l, l <> [] /\ a = l ++ rest st /\ prev st = after_text l o /\
    replace_from r f 0 o a =
    f (info_of a st) ++ replace_from r f 0 (after_text l o) (rest st).
Proof.
  intros Hc He.
  destruct (@exec_sound _ _ _ _ He) as (l & Ha & Hp & N). specialize (N Hc).
  exists l. repeat split; try assumption.
  destruct l as [|c l]; [congruence|].
  rewrite Ha at 1. cbn [app replace_from]. rewrite <- Ha at 1.
  change ((c :: l) ++ rest st) with (c :: (l ++ rest st)) in Ha.
  rewrite <- Ha, He. f_equal.
  rewrite Ha at 1. cbn [length].
  rewrite length_app.
  replace (S (length l + length (rest st)) - length (rest st)) with (S (length l)) by lia.
  rewrite replace_from_skip. reflexivity.
Qed.

(** Induction along the scan of a consuming pattern. *)
Lemma scan_ind (r : regex) (P : option char -> str -> Prop) :
  consumes r = true ->
  (forall o, P o []) ->
  (forall o c a, exec r o (c :: a) = None -> P (Some c) a -> P o (c :: a)) ->
  (forall o l st, l <> [] -> exec r o (l ++ rest st) = Some st ->
                  prev st = after_text l o ->
                  P (after_text l o) (rest st) -> P o (l ++ rest st)) ->
  forall o a, P o a.
Proof.
  intros Hc Hnil Hkeep Hmatch o a.
  remember (length a) as n eqn:Hn.
  revert o a Hn. induction n as [n IH] using lt_wf_ind. intros o a Hn.
  destruct (exec r o a) as [st|] eqn:E.
  - destruct (@exec_sound _ _ _ _ E) as (l & Ha & Hp & N). specialize (N Hc).
    subst a. apply Hmatch; try assumption.
    apply (IH (length (rest st))); [|reflexivity].
    subst n. rewrite length_app. destruct l; [congruence|cbn; lia].
  - destruct a as [|c a]; [apply Hnil|].
    apply Hkeep; [exact E|].
    apply (IH (length a)); [subst n; cbn; lia|reflexivity].
Qed.

Lemma test_from_true r o a :
  test_from r o a = true <->
  exists x y, a = x ++ y /\ exec r (after_text x o) y <> None.
Proof.
  revert o; induction a as [|c a IH]; intros o.
  - cbn. destruct (exec r o []) eqn:E.
    + split; [|reflexivity]. intros _. exists [], []. cbn. split; [reflexivity|congruence].
    + split; [discriminate|]. intros (x & y & Hxy & Hne).
      symmetry in Hxy. apply app_eq_nil in Hxy. destruct Hxy; subst. cbn in Hne. congruence.
  - cbn [test_from]. destruct (exec r o (c :: a)) eqn:E.
    + split; [|reflexivity]. intros _. exists [], (c :: a). cbn. split; [reflexivity|congruence].
    + rewrite IH. split.
      * intros (x & y & -> & Hne). exists (c :: x), y. split; [reflexivity|exact Hne].
      * intros (x & y & Hxy & Hne). destruct x as [|d x].
        -- cbn in Hxy, Hne. subst y. congruence.
        -- injection Hxy as <- ->. exists x, y. split; [reflexivity|exact Hne].
Qed.

(** ** Characters *)

Lemma isCRLF_space c : isCRLF c = true -> isSpace c = true.
Proof.
  unfold isCRLF, isSpace, CR, LF. intros H.
  apply orb_prop in H. destruct H as [H|H]; apply N.eqb_eq in H; subst c; reflexivity.
Qed.

Lemma isCRLF_lt c : isCRLF c = true -> isLineTerminator c = true.
Proof.
  unfold isCRLF, isLineTerminator, CR, LF. intros H.
  apply orb_prop in H. destruct H as [H|H]; apply N.eqb_eq in H; subst c; reflexivity.
Qed.

Lemma lt_space c : isLineTerminator c = true -> isSpace c = true.
Proof.
  unfold isLineTerminator, isSpace. intros H.
  repeat (apply orb_prop in H; destruct H as [H|H]);
    apply N.eqb_eq in H; subst c; reflexivity.
Qed.

Lemma isBlank_space c : isBlank c = true -> isSpace c = true.
Proof.
  unfold isBlank, isSpace, SP, TAB. intros H.
  apply orb_prop in H. destruct H as [H|H]; apply N.eqb_eq in H; subst c; reflexivity.
Qed.

Lemma isBlank_dot c : isBlank c = true -> dot c = true.
Proof.
  unfold isBlank, dot, isLineTerminator, SP, TAB. intros H.
  apply orb_prop in H. destruct H as [H|H]; apply N.eqb_eq in H; subst c; reflexivity.
Qed.

Lemma anyChar_true c : anyChar c = true.
Proof. unfold anyChar. destruct (isSpace c); reflexivity. Qed.

(** ** The lookahead of the single-line patterns *)

Lemma nonempty_app {A : Type} (l1 l2 : list A) :
  nonempty (l1 ++ l2) = nonempty l1 || nonempty l2.
Proof. destruct l1; reflexivity. Qed.

Lemma bracket_ahead o a cs :
  nonempty (run (Star true (Chr isBrEq) @@ ch LBR) (MState o a cs)) = long_start a.
Proof.
  revert o; induction a as [|c a IH]; intros o; [reflexivity|].
  rewrite run_greedy_then, nonempty_app. cbn [long_start].
  unfold isBrEq at 1.
  destruct (N.eqb c LBR) eqn:E1.
  - apply N.eqb_eq in E1. subst c. cbn. apply orb_true_r.
  - destruct (N.eqb c EQS) eqn:E2.
    + apply N.eqb_eq in E2. subst c. cbn [orb nonempty]. rewrite IH.
      cbn. apply orb_false_r.
    + cbn. rewrite N.eqb_sym, E1. reflexivity.
Qed.

Lemma run_notLongStart o a cs :
  run notLongStart (MState o a cs) =
  if long_start a then [] else [MState o a cs].
Proof.
  unfold notLongStart.
  change (run (Look false ?r) ?s)
    with (match run r s with [] => [s] | _ :: _ => [] end).
  rewrite <- (bracket_ahead o a cs).
  destruct (run _ (MState o a cs)); reflexivity.
Qed.

Lemma run_notLongStart_then k o a cs :
  run (notLongStart @@ k) (MState o a cs) =
  if long_start a then [] else run k (MState o a cs).
Proof.
  rewrite run_seq, run_notLongStart.
  destruct (long_start a); cbn; [reflexivity|apply app_nil_r].
Qed.

Lemma long_start_eqs k z : long_start (eqs k ++ LBR :: z) = true.
Proof. induction k as [|k IH]; [reflexivity|exact IH]. Qed.

Lemma long_start_inv y :
  long_start y = true -> exists k z, y = eqs k ++ LBR :: z.
Proof.
  induction y as [|c y IH]; [discriminate|]. cbn.
  destruct (N.eqb c LBR) eqn:E1.
  - apply N.eqb_eq in E1. subst c. intros _. exists 0, y. reflexivity.
  - destruct (N.eqb c EQS) eqn:E2; [|discriminate].
    apply N.eqb_eq in E2. subst c. intros H.
    destruct (IH H) as (k & z & ->). exists (S k), z. reflexivity.
Qed.

(** ** A greedy class at the end of a pattern *)

Lemma skip_line_split x : x = line_of x ++ skip_line x.
Proof.
  induction x as [|c x IH]; [reflexivity|]. cbn.
  destruct (dot c); [cbn; f_equal; exact IH|reflexivity].
Qed.

Lemma skip_line_head x :
  skip_line x = [] \/
  exists c y, skip_line x = c :: y /\ isLineTerminator c = true.
Proof.
  induction x as [|c x IH]; [left; reflexivity|]. cbn.
  destruct (dot c) eqn:E; [exact IH|].
  right. exists c, x. split; [reflexivity|].
  unfold dot in E. destruct (isLineTerminator c); [reflexivity|discriminate].
Qed.

Lemma line_of_dot x : forallb dot (line_of x) = true.
Proof.
  induction x as [|c x IH]; [reflexivity|]. cbn.
  destruct (dot c) eqn:E; [cbn; rewrite E; exact IH|reflexivity].
Qed.

(** The first way to match ".*" takes the whole line. *)
Lemma run_dots o x cs :
  exists tl,
    run (Star true (Chr dot)) (MState o x cs) =
    MState (after_text (line_of x) o) (skip_line x) cs :: tl.
Proof.
  revert o; induction x as [|c x IH]; intros o.
  - exists []. reflexivity.
  - rewrite run_star_greedy. cbn [line_of skip_line].
    destruct (dot c).
    + destruct (IH (Some c)) as [tl ->]. eexists. reflexivity.
    + eexists. reflexivity.
Qed.

(** ** The single-line patterns *)

Lemma exec_singleLineRegex o x :
  exec singleLineRegex o (DASH :: DASH :: x) =
  if long_start x then None else Some (MState (Some DASH) x []).
Proof.
  unfold exec, singleLineRegex.
  rewrite (run_Lit_then (js "--") _ o x []), run_notLongStart.
  destruct (long_start x); reflexivity.
Qed.

Lemma exec_singleLineSpan o x :
  exec singleLineSpan o (DASH :: DASH :: x) =
  if long_start x then None
  else Some (MState (after_text (line_of x) (Some DASH)) (skip_line x) []).
Proof.
  unfold exec, singleLineSpan.
  rewrite (run_Lit_then (js "--") _ o x []), run_notLongStart_then.
  destruct (long_start x); [reflexivity|].
  destruct (run_dots (after_text (js "--") o) x []) as [tl ->]. reflexivity.
Qed.

Lemma no_dashes_exec k o a :
  starts_with (js "--") a = false -> exec (Lit (js "--") @@ k) o a = None.
Proof. intros H. unfold exec. rewrite (@run_Lit_then_fail _ k o _ [] H). reflexivity. Qed.

Lemma starts_with_dashes a :
  starts_with (js "--") a = true -> exists x, a = DASH :: DASH :: x.
Proof. intros H. destruct (@starts_with_app _ _ H) as [x ->]. exists x. reflexivity. Qed.

Lemma exec_singleLineRegex_some o a :
  exec singleLineRegex o a <> None <->
  exists x, a = DASH :: DASH :: x /\ long_start x = false.
Proof.
  split.
  - intros H. destruct (starts_with (js "--") a) eqn:E.
    + destruct (@starts_with_dashes _ E) as [x ->]. exists x. split; [reflexivity|].
      rewrite exec_singleLineRegex in H. destruct (long_start x); congruence.
    + exfalso. apply H. unfold singleLineRegex. apply no_dashes_exec. exact E.
  - intros (x & -> & Hx). rewrite exec_singleLineRegex, Hx. discriminate.
Qed.

Lemma exec_singleLineSpan_some o a st :
  exec singleLineSpan o a = Some st ->
  exists x, a = DASH :: DASH :: x /\ long_start x = false /\
            rest st = skip_line x.
Proof.
  intros H. destruct (starts_with (js "--") a) eqn:E.
  - destruct (@starts_with_dashes _ E) as [x ->]. exists x.
    rewrite exec_singleLineSpan in H. destruct (long_start x); [discriminate|].
    injection H as <-. auto.
  - unfold singleLineSpan in H. rewrite (@no_dashes_exec _ o _ E) in H. discriminate.
Qed.

Lemma exec_singleLineSpan_none o a :
  exec singleLineSpan o a = None <-> exec singleLineRegex o a = None.
Proof.
  destruct (starts_with (js "--") a) eqn:E.
  - destruct (@starts_with_dashes _ E) as [x ->].
    rewrite exec_singleLineSpan, exec_singleLineRegex.
    destruct (long_start x); split; congruence.
  - unfold singleLineSpan, singleLineRegex.
    rewrite !(@no_dashes_exec _ o _ E). tauto.
Qed.

(** ** The empty-line pattern *)

Lemma run_spaces_crlf_sound a : forall o cs st',
  In st' (run (Star true (Chr isSpace) @@ Chr isCRLF) (MState o a cs)) ->
  exists w c, a = w ++ c :: rest st' /\ forallb isSpace w = true /\
              isCRLF c = true /\ prev st' = Some c.
Proof.
  induction a as [|d a IH]; intros o cs st' H.
  - rewrite run_greedy_then_nil in H. destruct H.
  - rewrite run_greedy_then in H. apply in_app_or in H. destruct H as [H|H].
    + destruct (isSpace d) eqn:E; [|destruct H].
      destruct (IH _ _ _ H) as (w & c & Ha & Hw & Hc & Hp).
      exists (d :: w), c. cbn. rewrite E, Hw. rewrite Ha at 1. auto.
    + cbn in H. destruct (isCRLF d) eqn:E; [|destruct H].
      destruct H as [<-|[]]. exists [], d. cbn. auto.
Qed.

Lemma run_spaces_crlf_complete w : forall c y o cs,
  forallb isSpace w = true -> isCRLF c = true ->
  nonempty (run (Star true (Chr isSpace) @@ Chr isCRLF)
                (MState o (w ++ c :: y) cs)) = true.
Proof.
  induction w as [|d w IH]; intros c y o cs Hw Hc.
  - cbn [app]. rewrite run_greedy_then, nonempty_app.
    apply orb_true_iff. right. cbn. rewrite Hc. reflexivity.
  - cbn in Hw. apply andb_prop in Hw. destruct Hw as [Hd Hw].
    cbn [app]. rewrite run_greedy_then, nonempty_app, Hd, IH by assumption.
    reflexivity.
Qed.

Lemma run_emptyLine o a cs :
  run emptyLine (MState o a cs) =
  if at_line_start true o
  then run (Star true (Chr isSpace) @@ Chr isCRLF) (MState o a cs) else [].
Proof.
  unfold emptyLine. rewrite run_seq.
  change (run (Bol true) ?s)
    with (if at_line_start true (prev s) then [s] else []).
  cbn [prev]. destruct (at_line_start true o); cbn [flat_map]; [|reflexivity].
  apply app_nil_r.
Qed.

Lemma exec_emptyLine_some o a st :
  exec emptyLine o a = Some st ->
  at_line_start true o = true /\
  exists w c, a = w ++ c :: rest st /\ forallb isSpace w = true /\
              isCRLF c = true /\ prev st = Some c.
Proof.
  unfold exec. rewrite run_emptyLine. intros H.
  destruct (at_line_start true o); [|discriminate]. split; [reflexivity|].
  destruct (run _ _) as [|s l] eqn:E; [discriminate|]. injection H as ->.
  apply (@run_spaces_crlf_sound a o [] st). rewrite E. left. reflexivity.
Qed.

Lemma exec_emptyLine_complete o w c y :
  at_line_start true o = true -> forallb isSpace w = true -> isCRLF c = true ->
  exec emptyLine o (w ++ c :: y) <> None.
Proof.
  intros Ho Hw Hc. unfold exec. rewrite run_emptyLine, Ho.
  pose proof (@run_spaces_crlf_complete w c y o [] Hw Hc) as H.
  destruct (run _ _); [discriminate|]. discriminate.
Qed.

Lemma exec_emptyLine_inside p a :
  isLineTerminator p = false -> exec emptyLine (Some p) a = None.
Proof.
  intros Hp. unfold exec. rewrite run_emptyLine. cbn. rewrite Hp. reflexivity.
Qed.

Lemma exec_emptyLine_solid o c a :
  isSpace c = false -> exec emptyLine o (c :: a) = None.
Proof.
  intros Hc. destruct (exec emptyLine o (c :: a)) as [st|] eqn:E; [|reflexivity].
  destruct (exec_emptyLine_some _ _ _ E) as (_ & w & d & Ha & Hw & Hd & _).
  destruct w as [|e w].
  - injection Ha as -> _. rewrite (isCRLF_space _ Hd) in Hc. discriminate.
  - injection Ha as -> _. cbn in Hw. rewrite Hc in Hw. discriminate.
Qed.

(** ** The long-bracket pattern *)

Lemma opener_app n z : opener n ++ z = js "--[" ++ eqs n ++ LBR :: z.
Proof. unfold opener. rewrite <- !app_assoc. reflexivity. Qed.

Lemma closer_app n y : closer n ++ y = RBR :: eqs n ++ RBR :: y.
Proof. unfold closer. cbn. rewrite <- app_assoc. reflexivity. Qed.

Lemma run_backref_then k e o a cs :
  run (Backref 1 @@ k) (MState o a ((1, e) :: cs)) =
  if starts_with e a
  then run k (advance_by e (MState o a ((1, e) :: cs))) else [].
Proof.
  rewrite run_seq. cbn [run caps capture Nat.eqb rest].
  destruct (starts_with e a); cbn [flat_map]; [apply app_nil_r|reflexivity].
Qed.

Lemma run_ch_last c o d a cs :
  run (ch c) (MState o (d :: a) cs) =
  if N.eqb c d then [MState (Some d) a cs] else [].
Proof. reflexivity. Qed.

Lemma run_closing_here e o y cs :
  run closing (MState o (RBR :: e ++ RBR :: y) ((1, e) :: cs)) =
  [MState (Some RBR) y ((1, e) :: cs)].
Proof.
  unfold closing. rewrite run_ch_cons, N.eqb_refl, run_backref_then.
  rewrite starts_with_prefix, advance_by_app, run_ch_last, N.eqb_refl.
  reflexivity.
Qed.

Lemma run_closing_sound e o a cs st' :
  In st' (run closing (MState o a ((1, e) :: cs))) ->
  a = RBR :: e ++ RBR :: rest st'.
Proof.
  unfold closing. destruct a as [|d a]; [intros []|].
  rewrite run_ch_cons. destruct (N.eqb RBR d) eqn:E; [|intros []].
  apply N.eqb_eq in E. subst d. rewrite run_backref_then.
  destruct (starts_with e a) eqn:Es; [|intros []].
  destruct (starts_with_app _ _ Es) as [a' ->].
  rewrite advance_by_app. destruct a' as [|d a']; [intros []|].
  rewrite run_ch_last. destruct (N.eqb RBR d) eqn:E; [|intros []].
  apply N.eqb_eq in E. subst d. intros [<-|[]]. reflexivity.
Qed.

Lemma run_closing_other e o d a cs :
  N.eqb d RBR = false -> run closing (MState o (d :: a) ((1, e) :: cs)) = [].
Proof.
  intros H. unfold closing. rewrite run_ch_cons, N.eqb_sym, H. reflexivity.
Qed.

Lemma run_body_sound e a : forall o cs st',
  In st' (run body_closing (MState o a ((1, e) :: cs))) ->
  exists body, a = body ++ RBR :: e ++ RBR :: rest st'.
Proof.
  unfold body_closing.
  induction a as [|d a IH]; intros o cs st' H.
  - rewrite run_lazy_then_nil in H. apply run_closing_sound in H. discriminate.
  - rewrite run_lazy_then in H. apply in_app_or in H. destruct H as [H|H].
    + apply run_closing_sound in H. exists []. exact H.
    + rewrite anyChar_true in H. destruct (IH _ _ _ H) as [body Hb].
      exists (d :: body). cbn. f_equal. exact Hb.
Qed.

Lemma run_body_complete (e y body : str) : forall o cs,
  nonempty (run body_closing
                (MState o (body ++ RBR :: e ++ RBR :: y) ((1, e) :: cs))) = true.
Proof.
  unfold body_closing.
  induction body as [|d body IH]; intros o cs.
  - cbn [app]. rewrite run_lazy_then, run_closing_here. reflexivity.
  - cbn [app]. rewrite run_lazy_then, nonempty_app, anyChar_true, IH.
    apply orb_true_r.
Qed.

(** The level: "(=* )". *)
Lemma run_eqs_sound a : forall o cs s',
  In s' (run (Star true (ch EQS)) (MState o a cs)) ->
  exists k, a = eqs k ++ rest s' /\ caps s' = cs.
Proof.
  induction a as [|d a IH]; intros o cs s' H.
  - destruct H as [<-|[]]. exists 0. split; reflexivity.
  - unfold ch in H. rewrite run_star_greedy in H.
    destruct (N.eqb EQS d) eqn:E.
    + apply N.eqb_eq in E. subst d. apply in_app_or in H. destruct H as [H|H].
      * destruct (IH _ _ _ H) as (k & Ha & Hc). exists (S k).
        split; [cbn; f_equal; exact Ha|exact Hc].
      * destruct H as [<-|[]]. exists 0. split; reflexivity.
    + destruct H as [<-|[]]. exists 0. split; reflexivity.
Qed.

Lemma run_eqs_first n y : forall o cs,
  exists tl,
    run (Star true (ch EQS)) (MState o (eqs n ++ LBR :: y) cs) =
    MState (after_text (eqs n) o) (LBR :: y) cs :: tl.
Proof.
  induction n as [|n IH]; intros o cs.
  - cbn [eqs repeat app]. unfold ch. rewrite run_star_greedy.
    change (N.eqb EQS LBR) with false. eexists. reflexivity.
  - cbn [eqs repeat app]. unfold ch. rewrite run_star_greedy, N.eqb_refl.
    destruct (IH (Some EQS) cs) as [tl Htl]. unfold ch, eqs in Htl.
    rewrite Htl. eexists. reflexivity.
Qed.

Lemma firstn_eqs k r : firstn (length (eqs k ++ r) - length r) (eqs k ++ r) = eqs k.
Proof.
  rewrite length_app. replace (length (eqs k) + length r - length r) with (length (eqs k) + 0) by lia.
  rewrite firstn_app_2. cbn. apply app_nil_r.
Qed.

Lemma multiLineRegex_eq : multiLineRegex = Lit (js "--[") @@ level_body.
Proof. reflexivity. Qed.

Lemma run_level_sound o a st' :
  In st' (run level_body (MState o a [])) ->
  exists n body, a = eqs n ++ LBR :: body ++ closer n ++ rest st'.
Proof.
  unfold level_body. rewrite run_seq. intros H.
  apply in_flat_map in H. destruct H as (s1 & H1 & H2).
  change (run (Group 1 ?r) ?s)
    with (map (fun s' => MState (prev s') (rest s')
                 ((1, firstn (length (rest s) - length (rest s')) (rest s)) :: caps s'))
              (run r s)) in H1.
  apply in_map_iff in H1. destruct H1 as (s' & <- & H1).
  destruct (run_eqs_sound _ _ _ _ H1) as (k & Ha & Hc).
  cbn [rest] in *. rewrite Ha, firstn_eqs, Hc in H2.
  destruct (rest s') as [|d a2] eqn:Er; [destruct H2|].
  rewrite run_ch_cons in H2. destruct (N.eqb LBR d) eqn:E; [|destruct H2].
  apply N.eqb_eq in E. subst d.
  destruct (run_body_sound _ _ _ _ _ H2) as [body Hb].
  exists k, body. rewrite Ha, closer_app, Hb. reflexivity.
Qed.

Lemma run_level_here o n z :
  run level_body (MState o (eqs n ++ LBR :: z) []) =
  run body_closing (MState (Some LBR) z [(1, eqs n)])
  ++ flat_map (run (ch LBR @@ body_closing))
       (List.tl (map (fun s' => MState (prev s') (rest s')
                   ((1, firstn (length (eqs n ++ LBR :: z) - length (rest s'))
                          (eqs n ++ LBR :: z)) :: caps s'))
                (run (Star true (ch EQS)) (MState o (eqs n ++ LBR :: z) [])))).
Proof.
  unfold level_body. rewrite run_seq.
  change (run (Group 1 ?r) ?s)
    with (map (fun s' => MState (prev s') (rest s')
                 ((1, firstn (length (rest s) - length (rest s')) (rest s)) :: caps s'))
              (run r s)).
  cbn [rest]. destruct (run_eqs_first n z o []) as [others ->].
  cbn [map flat_map List.tl rest prev caps].
  rewrite (firstn_eqs n (LBR :: z)), run_ch_cons, N.eqb_refl. reflexivity.
Qed.

Lemma exec_multiLineRegex_sound o a st :
  exec multiLineRegex o a = Some st ->
  exists n body, a = opener n ++ body ++ closer n ++ rest st.
Proof.
  unfold exec. rewrite multiLineRegex_eq. intros H.
  destruct (starts_with (js "--[") a) eqn:E.
  - destruct (starts_with_app _ _ E) as [a1 ->].
    rewrite run_Lit_then in H.
    destruct (run level_body _) as [|s l] eqn:Er; [discriminate|].
    injection H as ->.
    destruct (run_level_sound (after_text (js "--[") o) a1 st) as (n & body & ->).
    { rewrite Er. left. reflexivity. }
    exists n, body. rewrite opener_app. reflexivity.
  - rewrite (run_Lit_then_fail _ _ _ _ _ E) in H. discriminate.
Qed.

Lemma exec_multiLineRegex_complete o n (body y : str) :
  exec multiLineRegex o (opener n ++ body ++ closer n ++ y) <> None.
Proof.
  unfold exec. rewrite multiLineRegex_eq, opener_app, run_Lit_then, run_level_here.
  rewrite closer_app.
  pose proof (run_body_complete (eqs n) y body (Some LBR) []) as H.
  destruct (run body_closing _); [discriminate|]. discriminate.
Qed.

Lemma multiLineRegex_consumes : consumes multiLineRegex = true.
Proof. reflexivity. Qed.

(** ** What [test] finds *)

Lemma test_multiLineRegex s : test multiLineRegex s = true <-> HasLong s.
Proof.
  unfold test. rewrite test_from_true. split.
  - intros (x & y & -> & H).
    destruct (exec multiLineRegex (after_text x None) y) as [st|] eqn:E; [|congruence].
    destruct (exec_multiLineRegex_sound _ _ _ E) as (n & body & ->).
    exists x, n, body, (rest st). reflexivity.
  - intros (x & n & body & y & ->).
    exists x, (opener n ++ body ++ closer n ++ y). split; [reflexivity|].
    apply exec_multiLineRegex_complete.
Qed.

Lemma test_singleLineRegex s : test singleLineRegex s = true <-> HasSingle s.
Proof.
  unfold test. rewrite test_from_true. split.
  - intros (x & y & -> & H). apply exec_singleLineRegex_some in H.
    destruct H as (z & -> & Hz). exists x, z. auto.
  - intros (x & z & -> & Hz). exists x, (DASH :: DASH :: z).
    split; [reflexivity|]. apply exec_singleLineRegex_some. exists z. auto.
Qed.

Lemma not_true_false b : b = false <-> ~ b = true.
Proof. destruct b; split; congruence. Qed.

Lemma eqs_dot n : forallb dot (eqs n) = true.
Proof. induction n; [reflexivity|exact IHn]. Qed.

Lemma opener_dot n : forallb dot (opener n) = true.
Proof.
  unfold opener. rewrite !forallb_app, eqs_dot. reflexivity.
Qed.

Lemma closer_dot n : forallb dot (closer n) = true.
Proof.
  unfold closer. cbn [forallb]. rewrite forallb_app, eqs_dot. reflexivity.
Qed.

(** ** Removing the matches of a pattern *)

Section Deletion.
Variable r : regex.
Hypothesis r_consumes : consumes r = true.

Lemma del_nil o : del r o [] = [].
Proof. apply replace_from_nil. exact r_consumes. Qed.

Lemma del_keep o c a :
  exec r o (c :: a) = None -> del r o (c :: a) = c :: del r (Some c) a.
Proof. apply replace_from_keep. Qed.

Lemma del_match o l st :
  l <> [] -> exec r o (l ++ rest st) = Some st ->
  del r o (l ++ rest st) = del r (after_text l o) (rest st).
Proof.
  intros Hl He. unfold del.
  destruct (replace_from_match r (fun _ => []) o _ st r_consumes He)
    as (l' & _ & Ha & _ & ->).
  apply app_inv_tail in Ha. subst l'. reflexivity.
Qed.

(** A text without any match is left as it is. *)
Lemma del_no_match a : forall o,
  (forall x y, a = x ++ y -> exec r (after_text x o) y = None) ->
  del r o a = a.
Proof.
  induction a as [|c a IH]; intros o H; [apply del_nil|].
  rewrite del_keep by (apply (H [] (c :: a)); reflexivity).
  f_equal. apply IH. intros x y ->. apply (H (c :: x) y). reflexivity.
Qed.

(** The patterns whose matches are removed by [deleteAllComments] after
    the long-bracket pass start at the beginning of a line or stop at
    the end of one: a character kept inside a line was there before. *)
Hypothesis inside_line : forall p a d z,
  dot p = true -> dot d = true -> del r (Some p) a = d :: z ->
  exists a', a = d :: a' /\ del r (Some d) a' = z.

Lemma del_solid_inv w : forall p a z,
  dot p = true -> forallb dot w = true -> del r (Some p) a = w ++ z ->
  exists a', a = w ++ a' /\ del r (after_text w (Some p)) a' = z.
Proof.
  induction w as [|d w IH]; intros p a z Hp Hw H.
  - exists a. auto.
  - cbn in Hw. apply andb_prop in Hw. destruct Hw as [Hd Hw].
    destruct (inside_line p a d (w ++ z) Hp Hd H) as (a1 & -> & H1).
    destruct (IH d a1 z Hd Hw H1) as (a' & -> & H2).
    exists a'. auto.
Qed.

Lemma del_factor (w : str) :
  w <> [] -> forallb dot w = true ->
  forall o a y z, del r o a = y ++ w ++ z ->
  exists y' z', a = y' ++ w ++ z' /\ del r (after_text (y' ++ w) o) z' = z.
Proof.
  intros Hne Hw o a. revert o a.
  apply (scan_ind r (fun o a => forall y z, del r o a = y ++ w ++ z ->
    exists y' z', a = y' ++ w ++ z' /\ del r (after_text (y' ++ w) o) z' = z)
    r_consumes).
  - intros o y z H. rewrite del_nil in H.
    symmetry in H. apply app_eq_nil in H. destruct H as [_ H].
    apply app_eq_nil in H. destruct H. contradiction.
  - intros o c a He IH y z H. rewrite del_keep in H by exact He.
    destruct y as [|c' y].
    + destruct w as [|d w]; [contradiction|].
      cbn in H. injection H as <- H.
      cbn in Hw. apply andb_prop in Hw. destruct Hw as [Hc Hw].
      destruct (del_solid_inv w c a z Hc Hw H) as (a' & -> & H').
      exists [], a'. split; [reflexivity|exact H'].
    + cbn in H. injection H as <- H.
      destruct (IH y z H) as (y' & z' & -> & H').
      exists (c :: y'), z'. split; [reflexivity|exact H'].
  - intros o l st Hl He Hp IH y z H. rewrite del_match in H by assumption.
    destruct (IH y z H) as (y' & z' & Ha & H').
    exists (l ++ y'), z'. split.
    + rewrite Ha, <- app_assoc. reflexivity.
    + rewrite <- app_assoc, after_text_app. exact H'.
Qed.

(** Such a removal does not put a long-bracket comment together. *)
Lemma del_HasLong o s : HasLong (del r o s) -> HasLong s.
Proof.
  intros (x & n & body & y & H).
  assert (Ho : opener n <> []) by (unfold opener; discriminate).
  assert (Hc : closer n <> []) by (unfold closer; discriminate).
  destruct (del_factor (opener n) Ho (opener_dot n) _ _ _ _ H)
    as (x' & z' & -> & H1).
  destruct (del_factor (closer n) Hc (closer_dot n) _ _ _ _ H1)
    as (body' & y' & -> & _).
  exists x', n, body', y'. reflexivity.
Qed.
End Deletion.

(** ** The second and third pass of [deleteAllComments] *)

Lemma singleLineSpan_consumes : consumes singleLineSpan = true.
Proof. reflexivity. Qed.

Lemma emptyLine_consumes : consumes emptyLine = true.
Proof. reflexivity. Qed.

Lemma dot_lt c : dot c = true <-> isLineTerminator c = false.
Proof. unfold dot. destruct (isLineTerminator c); cbn; split; congruence. Qed.

Lemma exec_singleLineSpan_other o c a :
  N.eqb c DASH = false -> exec singleLineSpan o (c :: a) = None.
Proof.
  intros H. apply no_dashes_exec.
  change (starts_with [DASH; DASH] (c :: a) = false).
  cbn [starts_with]. rewrite N.eqb_sym, H. reflexivity.
Qed.

Lemma del_span_keep o c a :
  N.eqb c DASH = false ->
  del singleLineSpan o (c :: a) = c :: del singleLineSpan (Some c) a.
Proof. intros H. apply del_keep. apply exec_singleLineSpan_other. exact H. Qed.

Lemma del_span_level k : forall o z,
  del singleLineSpan o (eqs k ++ LBR :: z) =
  eqs k ++ LBR :: del singleLineSpan (Some LBR) z.
Proof.
  induction k as [|k IH]; intros o z.
  - cbn [eqs repeat app]. apply del_span_keep. reflexivity.
  - cbn [eqs repeat app]. rewrite del_span_keep by reflexivity.
    f_equal. apply IH.
Qed.

Lemma span_inside_line p a d z :
  dot p = true -> dot d = true -> del singleLineSpan (Some p) a = d :: z ->
  exists a', a = d :: a' /\ del singleLineSpan (Some d) a' = z.
Proof.
  intros _ Hd H. destruct a as [|e a].
  - rewrite del_nil in H by reflexivity. discriminate.
  - destruct (exec singleLineSpan (Some p) (e :: a)) as [st|] eqn:E.
    + exfalso.
      destruct (exec_singleLineSpan_some _ _ _ E) as (x & _ & _ & Hr).
      destruct (exec_sound _ _ _ _ E) as (l & Ha & _ & N).
      specialize (N singleLineSpan_consumes).
      rewrite Ha in E, H. rewrite del_match in H by (reflexivity || assumption).
      destruct (skip_line_head x) as [Hx|(c & y & Hx & Hc)]; rewrite <- Hr in Hx;
        rewrite Hx in H.
      * rewrite del_nil in H by reflexivity. discriminate.
      * rewrite del_span_keep in H.
        -- injection H as -> _. apply dot_lt in Hd. congruence.
        -- apply N.eqb_neq. intros ->. discriminate.
    + rewrite del_keep in H by exact E. injection H as -> H.
      exists a. auto.
Qed.

Lemma del_empty_keep o c a :
  isSpace c = false ->
  del emptyLine o (c :: a) = c :: del emptyLine (Some c) a.
Proof. intros H. apply del_keep. apply exec_emptyLine_solid. exact H. Qed.

Lemma del_empty_level k : forall o z,
  del emptyLine o (eqs k ++ LBR :: z) =
  eqs k ++ LBR :: del emptyLine (Some LBR) z.
Proof.
  induction k as [|k IH]; intros o z.
  - cbn [eqs repeat app]. apply del_empty_keep. reflexivity.
  - cbn [eqs repeat app]. rewrite del_empty_keep by reflexivity.
    f_equal. apply IH.
Qed.

Lemma empty_inside_line p a d z :
  dot p = true -> dot d = true -> del emptyLine (Some p) a = d :: z ->
  exists a', a = d :: a' /\ del emptyLine (Some d) a' = z.
Proof.
  intros Hp _ H. destruct a as [|e a].
  - rewrite del_nil in H by reflexivity. discriminate.
  - rewrite del_keep in H by (apply exec_emptyLine_inside, dot_lt, Hp).
    injection H as -> H. exists a. auto.
Qed.

(** After the single-line pass every "--" is followed by equals signs
    and a bracket. *)
Lemma del_span_no_single : forall o a x y,
  del singleLineSpan o a = x ++ DASH :: DASH :: y -> long_start y = true.
Proof.
  apply (scan_ind singleLineSpan
           (fun o a => forall x y,
              del singleLineSpan o a = x ++ DASH :: DASH :: y ->
              long_start y = true) singleLineSpan_consumes).
  - intros o x y H. rewrite del_nil in H by reflexivity.
    destruct x; discriminate.
  - intros o c a He IH x y H. rewrite del_keep in H by exact He.
    destruct x as [|c' x].
    + cbn in H. injection H as -> H.
      destruct (span_inside_line DASH a DASH y eq_refl eq_refl H) as (a' & -> & H').
      rewrite exec_singleLineSpan in He.
      destruct (long_start a') eqn:El; [|discriminate].
      destruct (long_start_inv _ El) as (k & z & ->).
      rewrite del_span_level in H'. subst y. apply long_start_eqs.
    + cbn in H. injection H as _ H. exact (IH _ _ H).
  - intros o l st Hl He Hp IH x y H.
    rewrite del_match in H by (reflexivity || assumption).
    exact (IH _ _ H).
Qed.

Lemma remove_span_no_single s : ~ HasSingle (strip singleLineSpan s).
Proof.
  intros (x & y & H & Hy).
  rewrite (del_span_no_single None s x y H) in Hy. discriminate.
Qed.

Lemma remove_span_HasLong s : HasLong (strip singleLineSpan s) -> HasLong s.
Proof.
  apply (del_HasLong singleLineSpan singleLineSpan_consumes span_inside_line).
Qed.

Lemma remove_empty_HasLong s : HasLong (strip emptyLine s) -> HasLong s.
Proof.
  apply (del_HasLong emptyLine emptyLine_consumes empty_inside_line).
Qed.

Lemma remove_empty_HasSingle s : HasSingle (strip emptyLine s) -> HasSingle s.
Proof.
  intros (x & y & H & Hy).
  assert (Hne : [DASH; DASH] <> []) by discriminate.
  destruct (del_factor emptyLine emptyLine_consumes empty_inside_line
              [DASH; DASH] Hne eq_refl None s x y H) as (x' & z' & -> & H').
  exists x', z'. split; [reflexivity|].
  destruct (long_start z') eqn:El; [|reflexivity].
  destruct (long_start_inv _ El) as (k & z & ->).
  rewrite del_empty_level in H'. subst y.
  rewrite long_start_eqs in Hy. discriminate.
Qed.

(** The shape the result of [deleteAllComments] cannot have. *)
Lemma deleteAllComments_no_single code : ~ HasSingle (deleteAllComments code).
Proof.
  unfold deleteAllComments. intros H.
  apply remove_empty_HasSingle in H. exact (remove_span_no_single _ H).
Qed.

Lemma deleteAllComments_HasLong code :
  HasLong (deleteAllComments code) -> HasLong (strip multiLineRegex code).
Proof.
  unfold deleteAllComments. intros H.
  apply remove_span_HasLong, remove_empty_HasLong, H.
Qed.

(** ** Lists *)

Lemma eqs_free c n : N.eqb EQS c = false -> free_of c (eqs n) = true.
Proof.
  intros H. induction n as [|n IH]; [reflexivity|].
  cbn. rewrite H. exact IH.
Qed.

(** Where [c] first occurs in a text. *)
Lemma first_occurrence (c : char) (l1 : str) : forall (r1 l2 r2 : str),
  free_of c l1 = true -> l1 ++ c :: r1 = l2 ++ c :: r2 ->
  (l1 = l2 /\ r1 = r2) \/ (exists l3, l2 = l1 ++ c :: l3 /\ r1 = l3 ++ c :: r2).
Proof.
  induction l1 as [|d l1 IH]; intros r1 l2 r2 Hf H.
  - destruct l2 as [|e l2].
    + left. injection H as ->. auto.
    + right. cbn in H. injection H as <- ->. exists l2. auto.
  - cbn in Hf. apply andb_prop in Hf. destruct Hf as [Hd Hf].
    apply negb_true_iff, N.eqb_neq in Hd.
    destruct l2 as [|e l2]; cbn in H; injection H as He H.
    + congruence.
    + subst e. destruct (IH _ _ _ Hf H) as [[-> ->]|(l3 & -> & ->)].
      * left. auto.
      * right. exists l3. auto.
Qed.

Lemma eqs_inj n m : eqs n = eqs m -> n = m.
Proof.
  intros H. apply (f_equal (@length char)) in H.
  unfold eqs in H. rewrite !repeat_length in H. exact H.
Qed.

Lemma level_inj c n m (a b : str) :
  N.eqb EQS c = false ->
  eqs n ++ c :: a = eqs m ++ c :: b -> n = m /\ a = b.
Proof.
  intros Hc H.
  destruct (first_occurrence c (eqs n) a (eqs m) b (eqs_free c n Hc) H)
    as [[H1 H2]|(l3 & H1 & _)].
  - split; [apply eqs_inj; exact H1|exact H2].
  - exfalso. pose proof (eqs_free c m Hc) as Hm. rewrite H1 in Hm.
    unfold free_of in Hm. rewrite forallb_app in Hm. cbn in Hm.
    rewrite N.eqb_refl in Hm. cbn in Hm. rewrite andb_false_r in Hm.
    discriminate.
Qed.

Lemma opener_inj n m (a b : str) :
  opener n ++ a = opener m ++ b -> n = m /\ a = b.
Proof.
  rewrite !opener_app. intros H. injection H as H.
  apply (level_inj LBR); [reflexivity|exact H].
Qed.

(** ** The claims on the comment detector and stripper *)

Lemma strip_nil r : consumes r = true -> strip r [] = [].
Proof. intros H. apply replace_from_nil. exact H. Qed.

Lemma strip_no_match r s : consumes r = true -> test r s = false -> strip r s = s.
Proof.
  intros Hc Ht. apply (del_no_match r Hc). intros x y ->.
  destruct (exec r (after_text x None) y) eqn:E; [|reflexivity].
  assert (test r (x ++ y) = true) as Ht'; [|congruence].
  apply test_from_true. exists x, y. split; [reflexivity|congruence].
Qed.

Lemma long_start_EqsBracket y : long_start y = true <-> EqsBracket y.
Proof.
  split; [apply long_start_inv|].
  intros (k & z & ->). apply long_start_eqs.
Qed.

Lemma HasSingle_spec s :
  HasSingle s <-> exists x y, s = x ++ DASH :: DASH :: y /\ ~ EqsBracket y.
Proof.
  split; intros (x & y & H & Hy); exists x, y; (split; [exact H|]).
  - rewrite <- long_start_EqsBracket, Hy. discriminate.
  - rewrite <- long_start_EqsBracket in Hy. destruct (long_start y); congruence.
Qed.

Lemma hasComments_true s : hasComments s = true <-> HasLong s \/ HasSingle s.
Proof.
  unfold hasComments.
  rewrite orb_true_iff, test_multiLineRegex, test_singleLineRegex. tauto.
Qed.

Lemma hasComments_false s : hasComments s = false <-> ~ HasLong s /\ ~ HasSingle s.
Proof. rewrite not_true_false, hasComments_true. tauto. Qed.

(** *** C1 *)

(** C1, as stated, fails: in "--[--[[a]][ x ]]" the only long-bracket
    opener is closed, and removing that comment leaves "--[[ x ]]". *)
Lemma spliced_comment_survives :
  ~ (well_terminated (js "--[--[[a]][ x ]]") = true ->
     hasComments (deleteAllComments (js "--[--[[a]][ x ]]")) = false).
Proof. intros H. specialize (H eq_refl). vm_compute in H. discriminate. Qed.

(** C1, amended: when the text left by the long-bracket pass of
    [deleteAllComments] contains no complete long-bracket comment,
    [hasComments] is false on the result of [deleteAllComments]. *)
Theorem hasComments_deleteAllComments (t : str) :
  test multiLineRegex (strip multiLineRegex t) = false ->
  hasComments (deleteAllComments t) = false.
Proof.
  intros H. apply hasComments_false. split.
  - intros HL. apply deleteAllComments_HasLong, test_multiLineRegex in HL.
    congruence.
  - apply deleteAllComments_no_single.
Qed.

Lemma hasComments_deleteAllComments_witness :
  let t := js "local x = 1 -- one" ++ [LF] ++ js "--[==[ two ]==] print(x)" in
  test multiLineRegex (strip multiLineRegex t) = false /\
  hasComments (deleteAllComments t) = false.
Proof.
  split; [reflexivity|].
  apply hasComments_deleteAllComments. reflexivity.
Defined.

(** *** C2 *)

(** What [hasComments] computes: it is true exactly when the text
    contains a complete long-bracket comment or a "--" that is not
    followed by zero or more equals signs and then "[". *)
Lemma hasComments_iff (s : str) :
  hasComments s = true <->
  HasLong s \/ exists x y, s = x ++ DASH :: DASH :: y /\ ~ EqsBracket y.
Proof. rewrite hasComments_true, HasSingle_spec. tauto. Qed.

(** C2: the "--" of "--[x" does not begin a long-bracket opener, for no
    second "[" follows, so that the text holds a single-line comment;
    [hasComments] is false on it, and [deleteAllComments] keeps the
    comment.  The lookahead of [singleLineRegex] rejects every "--"
    that equals signs and one "[" follow, where a long-bracket opener
    is "[", equals signs and another "[". *)
Theorem hasComments_misses_bracket_comment :
  HasLineComment (js "--[x") /\
  ~ HasLong (js "--[x") /\
  hasComments (js "--[x") = false /\
  deleteAllComments (js "--[x") = js "--[x".
Proof.
  split; [|split; [|split]].
  - exists [], (js "[x"). split; [reflexivity|].
    intros (n & z & Hz). destruct n; discriminate.
  - intros H. apply test_multiLineRegex in H. vm_compute in H. discriminate.
  - reflexivity.
  - reflexivity.
Qed.

(** *** C10 *)

(** C10: [deleteAllComments] is not idempotent.  On "--[--[[a]][ x ]]"
    the long-bracket pass removes "--[[a]]" and leaves "--[[ x ]]",
    which it does not scan again and which the later passes keep; a
    second call removes it. *)
Theorem deleteAllComments_not_idempotent :
  strip multiLineRegex (js "--[--[[a]][ x ]]") = js "--[[ x ]]" /\
  deleteAllComments (js "--[--[[a]][ x ]]") = js "--[[ x ]]" /\
  deleteAllComments (deleteAllComments (js "--[--[[a]][ x ]]")) = [] /\
  exists t, deleteAllComments (deleteAllComments t) <> deleteAllComments t.
Proof.
  split; [reflexivity|]. split; [reflexivity|]. split; [reflexivity|].
  exists (js "--[--[[a]][ x ]]"). vm_compute. discriminate.
Qed.

(** ** Blank lines *)

Lemma test_from_emptyLine o s :
  test_from emptyLine o s = true <-> BlankLineFrom o s.
Proof.
  rewrite test_from_true. split.
  - intros (x & y & -> & H).
    destruct (exec emptyLine (after_text x o) y) as [st|] eqn:E; [|congruence].
    destruct (exec_emptyLine_some _ _ _ E) as (Hs & w & c & -> & Hw & Hc & _).
    exists x, w, c, (rest st). auto.
  - intros (x & w & c & y & -> & Hs & Hw & Hc).
    exists x, (w ++ c :: y). split; [reflexivity|].
    apply exec_emptyLine_complete; assumption.
Qed.

(** White space and a line end at the head of the result were at the
    head of the text. *)
Lemma del_empty_blank_head : forall o a (w : str) c y,
  del emptyLine o a = w ++ c :: y -> blank w = true -> isCRLF c = true ->
  exists w' y', a = w' ++ c :: y' /\ blank w' = true.
Proof.
  apply (scan_ind emptyLine
           (fun o a => forall (w : str) c y,
              del emptyLine o a = w ++ c :: y -> blank w = true ->
              isCRLF c = true ->
              exists w' y', a = w' ++ c :: y' /\ blank w' = true)
           emptyLine_consumes).
  - intros o w c y H. rewrite del_nil in H by reflexivity.
    destruct w; discriminate.
  - intros o c1 a He IH w c y H Hw Hc. rewrite del_keep in H by exact He.
    destruct w as [|d w]; cbn in H; injection H as <- H.
    + exists [], a. auto.
    + cbn in Hw. apply andb_prop in Hw. destruct Hw as [Hd Hw].
      destruct (IH _ _ _ H Hw Hc) as (w' & y' & -> & Hw').
      exists (c1 :: w'), y'. cbn. rewrite Hd. auto.
  - intros o l st Hl He Hp IH w c y H Hw Hc.
    rewrite del_match in H by (reflexivity || assumption).
    destruct (IH _ _ _ H Hw Hc) as (w' & y' & Hr & Hw').
    destruct (exec_emptyLine_some _ _ _ He) as (_ & w0 & c0 & Ha & Hw0 & Hc0 & _).
    replace (w0 ++ c0 :: rest st) with ((w0 ++ [c0]) ++ rest st) in Ha
      by (rewrite <- app_assoc; reflexivity).
    apply app_inv_tail in Ha. subst l.
    exists ((w0 ++ [c0]) ++ w'), y'. split.
    + rewrite Hr, <- !app_assoc. reflexivity.
    + unfold blank in *. rewrite !forallb_app, Hw0, Hw'. cbn.
      rewrite (isCRLF_space _ Hc0). reflexivity.
Qed.

Lemma after_text_nonempty (x : str) o o' :
  x <> [] -> after_text x o = after_text x o'.
Proof. destruct x as [|c x]; [congruence|reflexivity]. Qed.

Lemma del_empty_no_blank : forall o a, ~ BlankLineFrom o (del emptyLine o a).
Proof.
  apply (scan_ind emptyLine
           (fun o a => ~ BlankLineFrom o (del emptyLine o a))
           emptyLine_consumes).
  - intros o (x & w & c & y & H & _). rewrite del_nil in H by reflexivity.
    destruct x; [destruct w|]; discriminate.
  - intros o c1 a He IH (x & w & c & y & H & Hs & Hw & Hc).
    rewrite del_keep in H by exact He.
    destruct x as [|d x].
    + cbn [app] in H. rewrite <- (del_keep emptyLine o c1 a He) in H.
      destruct (del_empty_blank_head _ _ _ _ _ H Hw Hc) as (w' & y' & Ha & Hw').
      rewrite Ha in He.
      exact (exec_emptyLine_complete o w' c y' Hs Hw' Hc He).
    + cbn in H. injection H as <- H. apply IH.
      exists x, w, c, y. auto.
  - intros o l st Hl He Hp IH (x & w & c & y & H & Hs & Hw & Hc).
    rewrite del_match in H by (reflexivity || assumption).
    apply IH. exists x, w, c, y. repeat split; try assumption.
    destruct x as [|d x]; [|exact Hs].
    cbn. rewrite <- Hp.
    destruct (exec_emptyLine_some _ _ _ He) as (_ & w0 & c0 & _ & _ & Hc0 & ->).
    cbn. apply isCRLF_lt. exact Hc0.
Qed.

(** *** C8 *)

(** C8, as stated, fails: the blank last line of "a", line feed, two
    spaces is kept. *)
Lemma blank_last_line_kept :
  ~ NoBlankLine (deleteAllComments (js "a" ++ [LF] ++ js "  ")).
Proof.
  intros H. specialize (H (js "  ")).
  assert (Hb : blank (js "  ") = false); [|discriminate Hb].
  apply H. vm_compute. right. left. reflexivity.
Qed.

(** C8, amended: the result of [deleteAllComments] contains no blank
    line that ends in a carriage return or a line feed; the pattern of
    the last pass no longer matches in it. *)
Theorem deleteAllComments_no_blank_line (code : str) :
  test emptyLine (deleteAllComments code) = false /\
  ~ BlankLineIn (deleteAllComments code).
Proof.
  assert (H : ~ BlankLineIn (deleteAllComments code)).
  { unfold deleteAllComments, BlankLineIn. apply del_empty_no_blank. }
  split; [|exact H].
  apply not_true_false. unfold test. rewrite test_from_emptyLine. exact H.
Qed.

(** ** Occurrences *)

Lemma starts_with_iff (p s : str) :
  starts_with p s = true <-> exists y, s = p ++ y.
Proof.
  split; [apply starts_with_app|].
  intros [y ->]. apply starts_with_prefix.
Qed.

Lemma occurrences_from_spec (p s : str) : forall b i,
  In i (occurrences_from b p s) <->
  exists x y, s = x ++ p ++ y /\ i = b + length x.
Proof.
  induction s as [|c s IH]; intros b i.
  - cbn [occurrences_from]. rewrite app_nil_r. split.
    + intros H. destruct (starts_with p []) eqn:E; [|destruct H].
      destruct H as [<-|[]]. apply starts_with_iff in E. destruct E as [y Hy].
      exists [], y. split; [exact Hy|cbn; lia].
    + intros (x & y & H & ->). destruct x; [|discriminate].
      cbn in H. assert (E : starts_with p [] = true)
        by (apply starts_with_iff; exists y; exact H).
      rewrite E. left. cbn. lia.
  - cbn [occurrences_from]. rewrite in_app_iff, IH. split.
    + intros [H|(x & y & -> & ->)].
      * destruct (starts_with p (c :: s)) eqn:E; [|destruct H].
        destruct H as [<-|[]]. apply starts_with_iff in E. destruct E as [y Hy].
        exists [], y. split; [exact Hy|cbn; lia].
      * exists (c :: x), y. split; [reflexivity|cbn; lia].
    + intros (x & y & H & ->). destruct x as [|d x].
      * left. cbn in H. assert (E : starts_with p (c :: s) = true)
          by (apply starts_with_iff; exists y; exact H).
        rewrite E. left. cbn. lia.
      * right. cbn in H. injection H as <- ->. exists x, y.
        split; [reflexivity|cbn; lia].
Qed.

Lemma occurs_spec (p s : str) :
  occurs p s = true <-> exists x y, s = x ++ p ++ y.
Proof.
  unfold occurs, occurrences. split.
  - destruct (occurrences_from 0 p s) as [|i l] eqn:E; [discriminate|].
    intros _. assert (H : In i (occurrences_from 0 p s)) by (rewrite E; left; reflexivity).
    apply occurrences_from_spec in H. destruct H as (x & y & H & _).
    exists x, y. exact H.
  - intros (x & y & H).
    assert (Hi : In (0 + length x) (occurrences_from 0 p s))
      by (apply occurrences_from_spec; exists x, y; auto).
    destruct (occurrences_from 0 p s); [destruct Hi|reflexivity].
Qed.

Lemma app_same_length (x pre a b : str) :
  length x = length pre -> x ++ a = pre ++ b -> x = pre /\ a = b.
Proof.
  revert pre; induction x as [|c x IH]; intros [|d pre] Hl H;
    try discriminate.
  - auto.
  - cbn in H. injection H as -> H. injection Hl as Hl.
    destruct (IH _ Hl H) as [-> ->]. auto.
Qed.

Lemma only_occurrence (p pre rest x y : str) :
  occurrences p (pre ++ p ++ rest) = [length pre] ->
  pre ++ p ++ rest = x ++ p ++ y -> x = pre /\ y = rest.
Proof.
  intros Ho H.
  assert (Hi : In (0 + length x) (occurrences p (pre ++ p ++ rest))).
  { apply occurrences_from_spec. exists x, y. auto. }
  rewrite Ho in Hi. destruct Hi as [Hi|[]]. cbn in Hi.
  symmetry in H. destruct (app_same_length _ _ _ _ (eq_sym Hi) H) as [-> H'].
  apply app_inv_head in H'. auto.
Qed.

(** ** An opener without closer *)

Lemma opener_dashes n (post : str) :
  opener n ++ post = js "--" ++ LBR :: eqs n ++ LBR :: post.
Proof. rewrite opener_app. reflexivity. Qed.

Section Unterminated.
Variables (pre : str) (n : nat) (post : str).
Hypothesis one_dashes :
  occurrences (js "--") (pre ++ opener n ++ post) = [length pre].
Hypothesis no_closer : occurs (closer n) post = false.

Lemma dashes_at x y :
  pre ++ opener n ++ post = x ++ js "--" ++ y ->
  x = pre /\ y = LBR :: eqs n ++ LBR :: post.
Proof.
  rewrite opener_dashes in *.
  apply only_occurrence. exact one_dashes.
Qed.

Lemma unterminated_no_long : ~ HasLong (pre ++ opener n ++ post).
Proof.
  intros (x & m & body & y & H). rewrite (opener_dashes m) in H.
  destruct (dashes_at _ _ H) as [-> Hy].
  change (LBR :: eqs m ++ LBR :: body ++ closer m ++ y)
    with (LBR :: (eqs m ++ LBR :: body ++ closer m ++ y)) in Hy.
  injection Hy as Hy.
  apply (level_inj LBR) in Hy; [|reflexivity]. destruct Hy as [-> Hy].
  assert (Hc : occurs (closer n) post = true).
  { apply occurs_spec. exists body, y. symmetry. exact Hy. }
  congruence.
Qed.

Lemma unterminated_no_single : ~ HasSingle (pre ++ opener n ++ post).
Proof.
  intros (x & y & H & Hy).
  destruct (dashes_at x y H) as [_ ->]. discriminate.
Qed.

Lemma unterminated_hasComments : hasComments (pre ++ opener n ++ post) = false.
Proof.
  apply hasComments_false. split;
    [apply unterminated_no_long|apply unterminated_no_single].
Qed.

Lemma unterminated_deleteAllComments :
  deleteAllComments (pre ++ opener n ++ post) =
  strip emptyLine (pre ++ opener n ++ post).
Proof.
  pose proof unterminated_hasComments as H. unfold hasComments in H.
  apply orb_false_elim in H. destruct H as [H1 H2].
  unfold deleteAllComments.
  rewrite (strip_no_match multiLineRegex _ eq_refl H1).
  f_equal. apply (del_no_match singleLineSpan singleLineSpan_consumes).
  intros x y Hxy. apply exec_singleLineSpan_none.
  destruct (exec singleLineRegex (after_text x None) y) eqn:E; [|reflexivity].
  assert (test singleLineRegex (pre ++ opener n ++ post) = true) as Ht;
    [|congruence].
  apply test_from_true. exists x, y. split; [exact Hxy|congruence].
Qed.
End Unterminated.

(** *** C9 *)

(** C9, as stated, fails: behind the unterminated opener of "--[[ a",
    two line feeds, "b", the empty line is removed. *)
Lemma blank_line_removed_behind_opener :
  ~ (occurrences (js "--") (opener 0 ++ js " a" ++ [LF; LF] ++ js "b") = [0] ->
     occurs (closer 0) (js " a" ++ [LF; LF] ++ js "b") = false ->
     hasComments (opener 0 ++ js " a" ++ [LF; LF] ++ js "b") = false /\
     deleteAllComments (opener 0 ++ js " a" ++ [LF; LF] ++ js "b") =
     opener 0 ++ js " a" ++ [LF; LF] ++ js "b").
Proof.
  intros H. destruct (H eq_refl eq_refl) as [_ H']. vm_compute in H'. discriminate.
Qed.

(** C9, amended: when the only "--" of a text begins a long-bracket
    opener that no closer of its level follows, [hasComments] is false
    and [deleteAllComments] removes nothing but blank lines: it returns
    what its last pass alone returns, the text itself when that pass
    finds no blank line. *)
Theorem unterminated_opener_is_no_comment (pre : str) (n : nat) (post : str) :
  occurrences (js "--") (pre ++ opener n ++ post) = [length pre] ->
  occurs (closer n) post = false ->
  hasComments (pre ++ opener n ++ post) = false /\
  deleteAllComments (pre ++ opener n ++ post) =
    strip emptyLine (pre ++ opener n ++ post) /\
  (test emptyLine (pre ++ opener n ++ post) = false ->
   deleteAllComments (pre ++ opener n ++ post) = pre ++ opener n ++ post).
Proof.
  intros H1 H2.
  pose proof (unterminated_deleteAllComments pre n post H1 H2) as Hd.
  split; [apply unterminated_hasComments; assumption|].
  split; [exact Hd|].
  intros Ht. rewrite Hd. apply strip_no_match; [reflexivity|exact Ht].
Qed.

Lemma unterminated_opener_is_no_comment_witness :
  hasComments (js "x = 1 " ++ opener 2 ++ js " never ]=] closed") = false /\
  deleteAllComments (js "x = 1 " ++ opener 2 ++ js " never ]=] closed") =
    js "x = 1 " ++ opener 2 ++ js " never ]=] closed".
Proof.
  destruct (unterminated_opener_is_no_comment
              (js "x = 1 ") 2 (js " never ]=] closed") eq_refl eq_refl)
    as (H1 & _ & H3).
  split; [exact H1|apply H3; reflexivity].
Defined.

(** ** The line collapser *)

Lemma run_star_nonempty g p o a cs :
  nonempty (run (Star g (Chr p)) (MState o a cs)) = true.
Proof.
  destruct a as [|c a]; [reflexivity|]. destruct g.
  - rewrite run_star_greedy. destruct (p c); [|reflexivity].
    rewrite nonempty_app. apply orb_true_r.
  - rewrite run_star_lazy. reflexivity.
Qed.

Lemma exec_lineBreaks_head o c a :
  isCRLFTab c = true -> exec lineBreaks o (c :: a) <> None.
Proof.
  intros Hc. unfold exec, lineBreaks, Plus. rewrite run_chr_cons, Hc.
  pose proof (run_star_nonempty true isCRLFTab (Some c) a []) as H.
  destruct (run _ _); [discriminate|]. discriminate.
Qed.

(** What [replace] returns is made of characters that no match covers
    and of the replacements. *)
Lemma replace_from_chars r (f : match_info -> str) (P : char -> Prop) :
  consumes r = true ->
  (forall m c, In c (f m) -> P c) ->
  (forall o c a, exec r o (c :: a) = None -> P c) ->
  forall a k o c, In c (replace_from r f k o a) -> P c.
Proof.
  intros Hc Hf Hkeep.
  induction a as [|d a IH]; intros k o c H.
  - destruct k; [|destruct H]. rewrite replace_from_nil in H by exact Hc. destruct H.
  - destruct k as [|k]; [|exact (IH _ _ _ H)].
    cbn [replace_from] in H. destruct (exec r o (d :: a)) as [st|] eqn:E.
    + apply in_app_or in H. destruct H as [H|H]; [exact (Hf _ _ H)|].
      destruct (exec_sound _ _ _ _ E) as (l & Ha & _ & N). specialize (N Hc).
      assert (Hlen : length (d :: a) - length (rest st) = length l).
      { rewrite Ha, length_app. lia. }
      rewrite Hlen in H. destruct l as [|e l]; [congruence|].
      exact (IH _ _ _ H).
    + destruct H as [<-|H]; [exact (Hkeep _ _ _ E)|exact (IH _ _ _ H)].
Qed.

Lemma trimStart_incl s c : In c (trimStart s) -> In c s.
Proof.
  induction s as [|d s IH]; [intros []|]. cbn.
  destruct (isSpace d); [right; apply IH; assumption|exact (fun H => H)].
Qed.

Lemma trim_incl s c : In c (trim s) -> In c s.
Proof.
  unfold trim, trimEnd. intros H.
  apply in_rev, trimStart_incl, in_rev, trimStart_incl in H. exact H.
Qed.

Lemma replace_from_incl r (f : match_info -> str) (P : char -> Prop) :
  (forall m c, In c (f m) -> P c) ->
  forall a k o c, In c (replace_from r f k o a) -> P c \/ In c a.
Proof.
  intros Hf.
  induction a as [|d a IH]; intros k o c H.
  - destruct k; [|destruct H]. cbn in H. destruct (exec r o []).
    + rewrite app_nil_r in H. left. exact (Hf _ _ H).
    + destruct H.
  - assert (Hrec : forall k' o', In c (replace_from r f k' o' a) ->
                                 P c \/ In c (d :: a)).
    { intros k' o' H'. destruct (IH _ _ _ H'); [left|right; right]; assumption. }
    destruct k as [|k]; [|exact (Hrec _ _ H)].
    cbn [replace_from] in H. destruct (exec r o (d :: a)) as [st|].
    + apply in_app_or in H. destruct H as [H|H]; [left; exact (Hf _ _ H)|].
      destruct (length (d :: a) - length (rest st)).
      * destruct H as [<-|H]; [right; left; reflexivity|exact (Hrec _ _ H)].
      * exact (Hrec _ _ H).
    + destruct H as [<-|H]; [right; left; reflexivity|exact (Hrec _ _ H)].
Qed.

Lemma collapse_chars s c : In c (collapse s) -> isCRLFTab c = false.
Proof.
  unfold collapse, replace. intros H. apply trim_incl in H.
  apply (replace_from_incl spaceRun (fun _ => [SP])
           (fun c => isCRLFTab c = false)) in H.
  - destruct H as [H|H]; [exact H|]. revert H.
    apply (replace_from_chars lineBreaks (fun _ => [SP])
             (fun c => isCRLFTab c = false) eq_refl).
    + intros _ d [<-|[]]. reflexivity.
    + intros o d a He. destruct (isCRLFTab d) eqn:E; [|reflexivity].
      exfalso. exact (exec_lineBreaks_head o d a E He).
  - intros _ d [<-|[]]. reflexivity.
Qed.

Lemma free_of_spec c (l : str) : free_of c l = true <-> ~ In c l.
Proof.
  unfold free_of. rewrite forallb_forall. split.
  - intros H Hin. specialize (H c Hin). rewrite N.eqb_refl in H. discriminate.
  - intros H d Hd. apply negb_true_iff, N.eqb_neq. intros ->. exact (H Hd).
Qed.

(** *** C7 *)

(** C7: in both modes the text returned by [toOneLiner] contains neither
    a line feed nor a tab (nor a carriage return). *)
Theorem toOneLiner_single_line (code : str) (opt : commentOption) :
  free_of LF (toOneLiner code opt) = true /\
  free_of TAB (toOneLiner code opt) = true /\
  free_of CR (toOneLiner code opt) = true.
Proof.
  unfold toOneLiner.
  repeat split; apply free_of_spec; intros H; apply collapse_chars in H;
    discriminate.
Qed.

(** ** The pattern of the [preserve] branch *)

Lemma lineComment_eq :
  lineComment = Lit (js "--") @@ Star true (Chr isBlank) @@ bracketGuard @@ content.
Proof. reflexivity. Qed.

Lemma run_bracketGuard_then k o a cs :
  run (bracketGuard @@ k) (MState o a cs) =
  if starts_with [LBR] a then [] else run k (MState o a cs).
Proof.
  unfold bracketGuard. rewrite run_seq.
  change (run (Look false ?r) ?s)
    with (match run r s with [] => [s] | _ :: _ => [] end).
  destruct a as [|d a].
  - rewrite run_ch_nil. cbn. apply app_nil_r.
  - rewrite run_ch_cons. cbn [starts_with]. rewrite andb_true_r.
    destruct (N.eqb LBR d).
    + unfold Opt. change (run (Alt ?x Eps) ?s) with (run x s ++ [s]).
      destruct (run _ _); reflexivity.
    + cbn. apply app_nil_r.
Qed.

Lemma firstn_line a : firstn (length a - length (skip_line a)) a = line_of a.
Proof.
  rewrite (skip_line_split a) at 1 3.
  rewrite length_app.
  replace (length (line_of a) + length (skip_line a) - length (skip_line a))
    with (length (line_of a) + 0) by lia.
  rewrite firstn_app_2. cbn. apply app_nil_r.
Qed.

Lemma run_content o a cs :
  exists o' others,
    run content (MState o a cs) =
    MState o' (skip_line a) ((1, line_of a) :: cs) :: others.
Proof.
  unfold content.
  change (run (Group 1 ?r) ?s)
    with (map (fun s' => MState (prev s') (rest s')
                 ((1, firstn (length (rest s) - length (rest s')) (rest s)) :: caps s'))
              (run r s)).
  destruct (run_dots o a cs) as [others ->].
  cbn [map rest prev caps]. rewrite firstn_line. eexists. eexists. reflexivity.
Qed.

(** The first match of what follows "--": the blanks that the guard
    lets pass, then the rest of the line as the content. *)
Lemma run_blanks_content a : forall o cs,
  starts_with [LBR] a = false ->
  exists o' b c1 others,
    run (Star true (Chr isBlank) @@ bracketGuard @@ content) (MState o a cs) =
    MState o' (skip_line a) ((1, c1) :: cs) :: others /\
    line_of a = b ++ c1 /\ forallb isBlank b = true.
Proof.
  induction a as [|c a IH]; intros o cs Ha.
  - rewrite run_greedy_then_nil, run_bracketGuard_then. cbn [starts_with].
    destruct (run_content o [] cs) as (o' & others & ->).
    exists o', [], [], others. auto.
  - rewrite run_greedy_then.
    assert (Hhere : exists o' others,
               run (bracketGuard @@ content) (MState o (c :: a) cs) =
               MState o' (skip_line (c :: a)) ((1, line_of (c :: a)) :: cs) :: others).
    { rewrite run_bracketGuard_then, Ha. apply run_content. }
    destruct (isBlank c) eqn:Eb.
    + destruct (starts_with [LBR] a) eqn:Ea.
      * destruct a as [|d a]; [discriminate|].
        rewrite run_greedy_then, run_bracketGuard_then, Ea.
        cbn [starts_with] in Ea. rewrite andb_true_r in Ea.
        apply N.eqb_eq in Ea. subst d.
        change (isBlank LBR) with false. cbn [app].
        destruct Hhere as (o' & others & ->).
        exists o', [], (line_of (c :: LBR :: a)), others. auto.
      * destruct (IH (Some c) cs eq_refl) as (o' & b & c1 & others & -> & Hl & Hb).
        exists o', (c :: b), c1, (others ++ run (bracketGuard @@ content) (MState o (c :: a) cs)).
        cbn [line_of skip_line]. rewrite (isBlank_dot _ Eb), Hl.
        cbn [forallb]. rewrite Eb, Hb. auto.
    + cbn [app]. destruct Hhere as (o' & others & ->).
      exists o', [], (line_of (c :: a)), others. auto.
Qed.

Lemma trimStart_blanks (b s : str) :
  forallb isBlank b = true -> trimStart (b ++ s) = trimStart s.
Proof.
  induction b as [|c b IH]; [reflexivity|]. cbn.
  intros H. apply andb_prop in H. destruct H as [Hc Hb].
  rewrite (isBlank_space _ Hc). exact (IH Hb).
Qed.

Lemma exec_lineComment o x :
  starts_with [LBR] x = false ->
  exists st, exec lineComment o (DASH :: DASH :: x) = Some st /\
             rest st = skip_line x /\
             toBlockComment (info_of (DASH :: DASH :: x) st) =
             block_comment (trim (line_of x)).
Proof.
  intros Hx. unfold exec. rewrite lineComment_eq.
  rewrite (run_Lit_then (js "--") _ o x []).
  destruct (run_blanks_content x (after_text (js "--") o) [] Hx)
    as (o' & b & c1 & others & -> & Hl & Hb).
  eexists. split; [reflexivity|]. split; [reflexivity|].
  unfold toBlockComment, info_of, group. cbn [groups caps capture Nat.eqb].
  rewrite Hl. unfold trim. rewrite (trimStart_blanks b c1 Hb). reflexivity.
Qed.

Lemma exec_lineComment_bracket o x :
  exec lineComment o (DASH :: DASH :: LBR :: x) = None.
Proof.
  unfold exec. rewrite lineComment_eq.
  rewrite (run_Lit_then (js "--") _ o (LBR :: x) []).
  rewrite run_greedy_then, run_bracketGuard_then. reflexivity.
Qed.

Lemma lineComment_consumes : consumes lineComment = true.
Proof. reflexivity. Qed.

(** The pattern does not look at what stands before a position. *)
Lemma replace_lineComment_start o a :
  replace_from lineComment toBlockComment 0 o a = preserveComments a.
Proof.
  unfold preserveComments, replace.
  destruct (starts_with (js "--") a) eqn:E.
  - destruct (starts_with_dashes _ E) as [x ->].
    destruct (starts_with [LBR] x) eqn:Ex.
    + destruct x as [|d x]; [discriminate|]. cbn [starts_with] in Ex.
      rewrite andb_true_r in Ex. apply N.eqb_eq in Ex. subst d.
      rewrite (replace_from_keep _ _ o _ _ (exec_lineComment_bracket o x)).
      rewrite (replace_from_keep _ _ None _ _ (exec_lineComment_bracket None x)).
      reflexivity.
    + destruct (exec_lineComment o x Ex) as (st & He & Hr & Hf).
      destruct (exec_lineComment None x Ex) as (st' & He' & Hr' & Hf').
      destruct (replace_from_match lineComment toBlockComment o _ st eq_refl He)
        as (l & Hl & Ha & _ & ->).
      destruct (replace_from_match lineComment toBlockComment None _ st' eq_refl He')
        as (l' & Hl' & Ha' & _ & ->).
      rewrite Hf, Hf', Hr, Hr'. f_equal.
      rewrite Hr in Ha. rewrite Hr' in Ha'. rewrite Ha in Ha' at 1.
      apply app_inv_tail in Ha'. subst l'.
      destruct l as [|c l]; [congruence|]. reflexivity.
  - destruct a as [|c a].
    + rewrite !replace_from_nil by reflexivity. reflexivity.
    + unfold lineComment.
      rewrite (replace_from_keep _ _ o _ _ (no_dashes_exec _ o _ E)).
      rewrite (replace_from_keep _ _ None _ _ (no_dashes_exec _ None _ E)).
      reflexivity.
Qed.

Lemma trimStart_nil s : trimStart s = [] <-> blank s = true.
Proof.
  induction s as [|c s IH]; [cbn; tauto|]. cbn.
  destruct (isSpace c); [exact IH|]. split; discriminate.
Qed.

Lemma blank_trimStart s : blank (trimStart s) = blank s.
Proof.
  induction s as [|c s IH]; [reflexivity|]. cbn.
  destruct (isSpace c) eqn:E; [exact IH|]. cbn. rewrite E. reflexivity.
Qed.

Lemma blank_rev s : blank (rev s) = blank s.
Proof.
  unfold blank. induction s as [|c s IH]; [reflexivity|].
  cbn. rewrite forallb_app, IH. cbn. rewrite andb_true_r. apply andb_comm.
Qed.

Lemma trim_nil s : trim s = [] <-> blank s = true.
Proof.
  unfold trim, trimEnd.
  rewrite <- (blank_trimStart s), <- (blank_rev (trimStart s)), <- trimStart_nil.
  split; intros H.
  - apply (f_equal (@rev char)) in H. rewrite rev_involutive in H. exact H.
  - rewrite H. reflexivity.
Qed.

Lemma block_comment_trim s :
  block_comment (trim s) =
  if blank s then [] else js " --[[ " ++ trim s ++ js " ]] ".
Proof.
  destruct (blank s) eqn:E.
  - apply trim_nil in E. rewrite E. reflexivity.
  - destruct (trim s) eqn:Et; [|reflexivity].
    apply trim_nil in Et. congruence.
Qed.

Lemma preserveComments_comment x :
  starts_with [LBR] x = false ->
  preserveComments (DASH :: DASH :: x) =
  block_comment (trim (line_of x)) ++ preserveComments (skip_line x).
Proof.
  intros Hx. destruct (exec_lineComment None x Hx) as (st & He & Hr & Hf).
  destruct (replace_from_match lineComment toBlockComment None _ st eq_refl He)
    as (l & _ & _ & _ & H).
  unfold preserveComments at 1. unfold replace.
  rewrite H, Hf, Hr, replace_lineComment_start. reflexivity.
Qed.

Lemma preserveComments_other c a :
  starts_with (js "--") (c :: a) = false ->
  preserveComments (c :: a) = c :: preserveComments a.
Proof.
  intros H. unfold preserveComments at 1. unfold replace, lineComment.
  rewrite (replace_from_keep _ _ None _ _ (no_dashes_exec _ None _ H)).
  f_equal. apply replace_lineComment_start.
Qed.

Lemma preserveComments_bracket y :
  preserveComments (DASH :: DASH :: LBR :: y) =
  DASH :: DASH :: LBR :: preserveComments y.
Proof.
  unfold preserveComments at 1. unfold replace.
  rewrite (replace_from_keep _ _ None _ _ (exec_lineComment_bracket None y)).
  rewrite replace_lineComment_start.
  rewrite (preserveComments_other DASH (LBR :: y) eq_refl).
  rewrite (preserveComments_other LBR y eq_refl). reflexivity.
Qed.

(** *** C6 *)

(** What the [replace] of the [preserve] mode computes, from the left:
    a "--" that is not followed by "[" is replaced, with the rest of
    its line, by " --[[ ", the trimmed rest of the line and " ]] ", or
    by nothing when the rest of the line is blank; a "--" followed by
    "[" and every other character stay. *)
Lemma preserveComments_equations (x y a : str) :
  starts_with [LBR] x = false ->
  starts_with (js "--") a = false ->
  preserveComments (js "--" ++ x) =
    (if blank (line_of x) then []
     else js " --[[ " ++ trim (line_of x) ++ js " ]] ")
    ++ preserveComments (skip_line x) /\
  preserveComments (js "--[" ++ y) = js "--[" ++ preserveComments y /\
  preserveComments a =
    match a with [] => [] | c :: a' => c :: preserveComments a' end.
Proof.
  intros Hx Ha. split; [|split].
  - rewrite <- block_comment_trim. apply preserveComments_comment. exact Hx.
  - apply preserveComments_bracket.
  - destruct a as [|c a']; [reflexivity|].
    apply preserveComments_other. exact Ha.
Qed.

(** C6: in "a = 1 --[ todo", line feed, "b = 2" the "--" does not start
    a long-bracket comment, for no second "[" follows: it is a
    single-line comment.  In the [preserve] mode [toOneLiner] leaves it
    as it is, and on the line returned the comment takes "b = 2" with
    it; with "-- todo" in its place the comment is rewritten.  The
    lookahead of [lineComment] rejects every "--" that one "[" follows.
    And the "--" inside the long-bracket comment "--[[ a -- b ]]" is
    rewritten. *)
Theorem preserve_misses_bracket_comment :
  ~ OpensLong (js "[ todo" ++ [LF] ++ js "b = 2") /\
  toOneLiner (js "a = 1 --[ todo" ++ [LF] ++ js "b = 2") preserve =
    js "a = 1 --[ todo b = 2" /\
  toOneLiner (js "a = 1 -- todo" ++ [LF] ++ js "b = 2") preserve =
    js "a = 1 --[[ todo ]] b = 2" /\
  toOneLiner (js "--[[ a -- b ]]") preserve = js "--[[ a --[[ b ]] ]]".
Proof.
  split; [|repeat split].
  intros (n & z & Hz). destruct n; discriminate.
Qed.

(** ** The indent level *)



(** ** Further properties of the comment stripper *)

Lemma Subseq_refl (a : str) : Subseq a a.
Proof. induction a; constructor; assumption. Qed.

Lemma Subseq_trans (a b c : str) : Subseq a b -> Subseq b c -> Subseq a c.
Proof.
  intros Hab Hbc. revert a Hab.
  induction Hbc as [|d b c Hbc IH|d b c Hbc IH]; intros a Hab.
  - exact Hab.
  - inversion Hab; subst.
    + constructor. apply IH. assumption.
    + apply Subseq_drop. apply IH. assumption.
  - apply Subseq_drop. apply IH. exact Hab.
Qed.

Lemma Subseq_length (a b : str) : Subseq a b -> length a <= length b.
Proof. induction 1; cbn; lia. Qed.

Lemma Subseq_visible (a b : str) : Subseq a b -> Subseq (visible a) (visible b).
Proof.
  induction 1 as [|c a b H IH|c a b H IH]; cbn.
  - constructor.
  - destruct (isSpace c); cbn; [exact IH|constructor; exact IH].
  - destruct (isSpace c); cbn; [exact IH|apply Subseq_drop; exact IH].
Qed.

(** Replacing matches by nothing only leaves characters out. *)
Lemma del_Subseq r (a : str) : forall k o,
  Subseq (replace_from r (fun _ => []) k o a) a.
Proof.
  induction a as [|c a IH]; intros k o.
  - destruct k; cbn; [destruct (exec r o [])|]; constructor.
  - destruct k as [|k]; cbn [replace_from].
    + destruct (exec r o (c :: a)) as [st|]; cbn [app].
      * destruct (length (c :: a) - length (rest st));
          [apply Subseq_keep|apply Subseq_drop]; apply IH.
      * apply Subseq_keep, IH.
    + apply Subseq_drop, IH.
Qed.

Lemma strip_Subseq r (s : str) : Subseq (strip r s) s.
Proof. apply del_Subseq. Qed.

(** Without single-line comment nothing is removed by the second pass,
    without long-bracket comment nothing by the first. *)
Lemma strip_singleLineSpan_no_match s :
  test singleLineRegex s = false -> strip singleLineSpan s = s.
Proof.
  intros Ht. apply (del_no_match singleLineSpan singleLineSpan_consumes).
  intros x y ->. apply exec_singleLineSpan_none.
  destruct (exec singleLineRegex (after_text x None) y) eqn:E; [|reflexivity].
  assert (test singleLineRegex (x ++ y) = true) as Ht'; [|congruence].
  apply test_from_true. exists x, y. split; [reflexivity|congruence].
Qed.

Lemma deleteAllComments_no_comment code :
  hasComments code = false -> deleteAllComments code = strip emptyLine code.
Proof.
  intros H. unfold hasComments in H. apply orb_false_elim in H.
  destruct H as [H1 H2]. unfold deleteAllComments.
  rewrite (strip_no_match multiLineRegex code eq_refl H1).
  rewrite (strip_singleLineSpan_no_match code H2). reflexivity.
Qed.

Lemma test_emptyLine_deleteAllComments code :
  test emptyLine (deleteAllComments code) = false.
Proof.
  apply not_true_false. unfold test. rewrite test_from_emptyLine.
  unfold deleteAllComments. apply del_empty_no_blank.
Qed.

(** The matches of the last pass are white space. *)
Lemma visible_app (a b : str) : visible (a ++ b) = visible a ++ visible b.
Proof. apply filter_app. Qed.

Lemma visible_cons c (a : str) :
  visible (c :: a) = if isSpace c then visible a else c :: visible a.
Proof. unfold visible. cbn. destruct (isSpace c); reflexivity. Qed.

Lemma visible_blank (w : str) : blank w = true -> visible w = [].
Proof.
  induction w as [|c w IH]; [reflexivity|]. cbn.
  intros H. apply andb_prop in H. destruct H as [Hc Hw].
  rewrite Hc. cbn. exact (IH Hw).
Qed.

Lemma visible_strip_emptyLine : forall o a,
  visible (del emptyLine o a) = visible a.
Proof.
  apply (scan_ind emptyLine
           (fun o a => visible (del emptyLine o a) = visible a)
           emptyLine_consumes).
  - intros o. rewrite del_nil by reflexivity. reflexivity.
  - intros o c a He IH. rewrite del_keep by exact He.
    rewrite !visible_cons, IH. reflexivity.
  - intros o l st Hl He Hp IH.
    rewrite del_match by (reflexivity || assumption). rewrite IH.
    destruct (exec_emptyLine_some _ _ _ He) as (_ & w & c & Ha & Hw & Hc & _).
    replace (w ++ c :: rest st) with ((w ++ [c]) ++ rest st) in Ha
      by (rewrite <- app_assoc; reflexivity).
    apply app_inv_tail in Ha. subst l.
    rewrite !visible_app, (visible_blank w Hw). cbn.
    rewrite (isCRLF_space _ Hc). reflexivity.
Qed.

(** No "--" in the text, no comment. *)
Lemma no_dashes_no_comment code :
  occurs (js "--") code = false -> hasComments code = false.
Proof.
  intros H. apply hasComments_false. split.
  - intros (x & n & body & y & Hl).
    assert (Ho : occurs (js "--") code = true); [|congruence].
    apply occurs_spec. exists x, (LBR :: eqs n ++ LBR :: body ++ closer n ++ y).
    rewrite Hl, opener_dashes. reflexivity.
  - intros (x & y & Hs & _).
    assert (Ho : occurs (js "--") code = true); [|congruence].
    apply occurs_spec. exists x, y. exact Hs.
Qed.

(** *** X1 *)

(** X1: [reverseCode] is its own inverse, keeps the length and turns a
    concatenation around. *)
Theorem reverseCode_round_trip (a b : str) :
  reverseCode (reverseCode a) = a /\
  length (reverseCode a) = length a /\
  reverseCode (a ++ b) = reverseCode b ++ reverseCode a.
Proof.
  unfold reverseCode. split; [apply rev_involutive|].
  split; [apply length_rev|apply rev_app_distr].
Qed.

(** *** X2 *)

(** X2: whatever the input, the result of [deleteAllComments] holds no
    "--" that the single-line pattern of [hasComments] accepts; if
    [hasComments] is true on it, a long-bracket comment is the cause. *)
Theorem no_line_comment_survives (code : str) :
  test singleLineRegex (deleteAllComments code) = false /\
  hasComments (deleteAllComments code) =
    test multiLineRegex (deleteAllComments code).
Proof.
  assert (H : test singleLineRegex (deleteAllComments code) = false).
  { apply not_true_false. rewrite test_singleLineRegex.
    apply deleteAllComments_no_single. }
  split; [exact H|]. unfold hasComments. rewrite H. apply orb_false_r.
Qed.

(** *** X3 *)

(** X3: when [hasComments] is false on a text, [deleteAllComments]
    removes white space only. *)
Theorem deleteAllComments_keeps_uncommented_text (code : str) :
  hasComments code = false ->
  visible (deleteAllComments code) = visible code.
Proof.
  intros H. rewrite (deleteAllComments_no_comment code H).
  apply visible_strip_emptyLine.
Qed.

Lemma deleteAllComments_keeps_uncommented_text_witness :
  visible (deleteAllComments (js "a = b - c" ++ [LF; LF] ++ js "  --[[ open")) =
  visible (js "a = b - c" ++ [LF; LF] ++ js "  --[[ open").
Proof.
  apply deleteAllComments_keeps_uncommented_text. reflexivity.
Defined.

(** *** X4 *)

(** X4: a text on which [hasComments] is false and in which the
    empty-line pattern does not match is returned unchanged by
    [deleteAllComments]. *)
Theorem deleteAllComments_fixed_point (code : str) :
  hasComments code = false -> test emptyLine code = false ->
  deleteAllComments code = code.
Proof.
  intros H1 H2. rewrite (deleteAllComments_no_comment code H1).
  apply strip_no_match; [reflexivity|exact H2].
Qed.

Lemma deleteAllComments_fixed_point_witness :
  deleteAllComments (js "local x = a - b" ++ [LF] ++ js "  print(x)  ") =
  js "local x = a - b" ++ [LF] ++ js "  print(x)  ".
Proof.
  apply deleteAllComments_fixed_point; reflexivity.
Defined.

(** *** X5 *)

(** X5: [deleteAllComments] only leaves characters out: its result is
    the input with some characters removed, in the same order, and is
    never longer than the input. *)
Theorem deleteAllComments_only_deletes (code : str) :
  Subseq (deleteAllComments code) code /\
  length (deleteAllComments code) <= length code.
Proof.
  assert (H : Subseq (deleteAllComments code) code).
  { unfold deleteAllComments.
    eapply Subseq_trans; [apply strip_Subseq|].
    eapply Subseq_trans; apply strip_Subseq. }
  split; [exact H|apply Subseq_length; exact H].
Qed.

(** *** X6 *)

(** X6: when [hasComments] is false on the result of
    [deleteAllComments], a second call changes nothing. *)
Theorem deleteAllComments_idempotent_when_clean (code : str) :
  hasComments (deleteAllComments code) = false ->
  deleteAllComments (deleteAllComments code) = deleteAllComments code.
Proof.
  intros H. rewrite (deleteAllComments_no_comment _ H).
  apply strip_no_match; [reflexivity|].
  apply test_emptyLine_deleteAllComments.
Qed.

Lemma deleteAllComments_idempotent_when_clean_witness :
  deleteAllComments
    (deleteAllComments (js "x = 1 -- one" ++ [LF; LF] ++ js "--[=[ two ]=] y = 2")) =
  deleteAllComments (js "x = 1 -- one" ++ [LF; LF] ++ js "--[=[ two ]=] y = 2").
Proof.
  apply deleteAllComments_idempotent_when_clean. reflexivity.
Defined.

(** *** X7 *)

(** X7: [hasComments] is false on every text in which "--" does not
    occur. *)
Theorem hasComments_needs_dashes (code : str) :
  occurs (js "--") code = false -> hasComments code = false.
Proof. apply no_dashes_no_comment. Qed.

Lemma hasComments_needs_dashes_witness :
  hasComments (js "x = a - b [[ text ]] - c") = false.
Proof. apply hasComments_needs_dashes. reflexivity. Defined.

(** ** Patterns that read one class of characters *)

Lemma star_loop_reads_only (q : char -> bool) (step : mstate -> list mstate) g :
  (forall st st', In st' (step st) ->
     exists l, reads l st st' /\ forallb q l = true) ->
  forall n st st', In st' (star_loop step g n st) ->
    exists l, reads l st st' /\ forallb q l = true.
Proof.
  intros Hstep n; induction n as [|n IH]; intros st st' H.
  - cbn in H. destruct H as [<-|[]]. exists []. split; [apply reads_refl|reflexivity].
  - cbn in H.
    assert (In st' [st] \/
            In st' (flat_map (fun s' =>
                      if length (rest s') <? length (rest st)
                      then star_loop step g n s' else []) (step st))) as [H1|H1].
    { destruct g.
      - apply in_app_or in H. tauto.
      - destruct H as [H|H]; [left; left; exact H|right; exact H]. }
    + destruct H1 as [<-|[]]. exists []. split; [apply reads_refl|reflexivity].
    + apply in_flat_map in H1. destruct H1 as (s1 & Hs1 & Hin).
      destruct (length (rest s1) <? length (rest st)); [|destruct Hin].
      destruct (Hstep _ _ Hs1) as (l1 & R1 & Q1).
      destruct (IH _ _ Hin) as (l2 & R2 & Q2).
      exists (l1 ++ l2). split; [eapply reads_trans; eassumption|].
      rewrite forallb_app, Q1, Q2. reflexivity.
Qed.

Lemma run_reads_only (q : char -> bool) r : reads_only q r ->
  forall st st', In st' (run r st) ->
    exists l, reads l st st' /\ forallb q l = true.
Proof.
  induction r as [|p|r1 IH1 r2 IH2|r1 IH1 r2 IH2|g r1 IH1|i r1 IH1|i|b r1 IH1|m|];
    intros Hr st st' H.
  - destruct H as [<-|[]]. exists []. split; [apply reads_refl|reflexivity].
  - cbn in H. destruct (rest st) as [|c a] eqn:E; [destruct H|].
    destruct (p c) eqn:Ep; [|destruct H]. destruct H as [<-|[]].
    exists [c]. split; [split; cbn; [exact E|reflexivity]|].
    cbn. rewrite (Hr c Ep). reflexivity.
  - destruct Hr as [Hr1 Hr2].
    cbn in H. apply in_flat_map in H. destruct H as (s1 & H1 & H2).
    destruct (IH1 Hr1 _ _ H1) as (l1 & R1 & Q1).
    destruct (IH2 Hr2 _ _ H2) as (l2 & R2 & Q2).
    exists (l1 ++ l2). split; [eapply reads_trans; eassumption|].
    rewrite forallb_app, Q1, Q2. reflexivity.
  - destruct Hr as [Hr1 Hr2]. cbn in H. apply in_app_or in H.
    destruct H as [H|H]; [exact (IH1 Hr1 _ _ H)|exact (IH2 Hr2 _ _ H)].
  - cbn in H. cbn in Hr.
    exact (star_loop_reads_only q (run r1) g (IH1 Hr) _ _ _ H).
  - cbn in H. apply in_map_iff in H. destruct H as (s1 & <- & H1).
    destruct (IH1 Hr _ _ H1) as (l & [R1 R2] & Q).
    exists l. split; [split; assumption|exact Q].
  - destruct Hr.
  - exists []. split; [|reflexivity]. cbn in H.
    destruct b; destruct (run r1 st); cbn in H; try contradiction;
      destruct H as [<-|[]]; split; reflexivity.
  - exists []. split; [|reflexivity]. cbn in H.
    destruct (at_line_start m (prev st)); cbn in H; try contradiction;
      destruct H as [<-|[]]; apply reads_refl.
  - exists []. split; [|reflexivity]. cbn in H.
    destruct (xorb _ _); cbn in H; try contradiction;
      destruct H as [<-|[]]; apply reads_refl.
Qed.

Lemma exec_reads_only (q : char -> bool) r o a st :
  reads_only q r -> exec r o a = Some st ->
  exists l, a = l ++ rest st /\ forallb q l = true.
Proof.
  unfold exec. intros Hr H.
  destruct (run r (MState o a [])) as [|s l0] eqn:E; [discriminate|].
  injection H as ->.
  destruct (run_reads_only q r Hr (MState o a []) st) as (l & [R1 _] & Q).
  { rewrite E. left. reflexivity. }
  exists l. auto.
Qed.

(** ** What [replace] keeps *)

Lemma matched_info (l : str) st : matched (info_of (l ++ rest st) st) = l.
Proof.
  unfold info_of. cbn [matched]. rewrite length_app.
  replace (length l + length (rest st) - length (rest st)) with (length l + 0) by lia.
  rewrite firstn_app_2. cbn. apply app_nil_r.
Qed.

(** When every replacement shows what its match shows, the text shows
    after [replace] what it showed before. *)
Lemma replace_visible r (f : match_info -> str) :
  consumes r = true ->
  (forall o a st, exec r o a = Some st ->
     visible (f (info_of a st)) = visible (matched (info_of a st))) ->
  forall o a, visible (replace_from r f 0 o a) = visible a.
Proof.
  intros Hc Hf.
  apply (scan_ind r (fun o a => visible (replace_from r f 0 o a) = visible a) Hc).
  - intros o. rewrite replace_from_nil by exact Hc. reflexivity.
  - intros o c a He IH. rewrite replace_from_keep by exact He.
    rewrite !visible_cons, IH. reflexivity.
  - intros o l st Hl He Hp IH.
    destruct (replace_from_match r f o _ st Hc He) as (l' & _ & Ha & _ & ->).
    apply app_inv_tail in Ha. subst l'.
    rewrite !visible_app, IH, (Hf _ _ _ He), matched_info. reflexivity.
Qed.

Lemma replace_space_visible r (f : match_info -> str) :
  consumes r = true -> reads_only isSpace r ->
  (forall m, visible (f m) = []) ->
  forall s, visible (replace r f s) = visible s.
Proof.
  intros Hc Hr Hf s. apply (replace_visible r f Hc).
  intros o a st He. rewrite Hf.
  destruct (exec_reads_only isSpace r o a st Hr He) as (l & -> & Hl).
  rewrite matched_info. symmetry. apply visible_blank. exact Hl.
Qed.

(** A text without any match is left as it is. *)
Lemma replace_no_match r (f : match_info -> str) (a : str) : forall o,
  consumes r = true ->
  (forall x y, a = x ++ y -> exec r (after_text x o) y = None) ->
  replace_from r f 0 o a = a.
Proof.
  induction a as [|c a IH]; intros o Hc H; [apply replace_from_nil; exact Hc|].
  rewrite replace_from_keep by (apply (H [] (c :: a)); reflexivity).
  f_equal. apply IH; [exact Hc|].
  intros x y ->. apply (H (c :: x) y). reflexivity.
Qed.

Lemma visible_trimStart s : visible (trimStart s) = visible s.
Proof.
  induction s as [|c s IH]; [reflexivity|]. cbn [trimStart].
  rewrite visible_cons. destruct (isSpace c) eqn:E; [exact IH|].
  rewrite visible_cons, E. reflexivity.
Qed.

Lemma visible_rev s : visible (rev s) = rev (visible s).
Proof.
  induction s as [|c s IH]; [reflexivity|]. cbn [rev].
  rewrite visible_app, IH, !visible_cons.
  destruct (isSpace c); cbn; [apply app_nil_r|reflexivity].
Qed.

Lemma visible_trim s : visible (trim s) = visible s.
Proof.
  unfold trim, trimEnd.
  rewrite visible_rev, visible_trimStart, visible_rev, rev_involutive.
  apply visible_trimStart.
Qed.

Lemma lineBreaks_space : reads_only isSpace lineBreaks.
Proof.
  assert (H : forall c, isCRLFTab c = true -> isSpace c = true).
  { intros c Hc. unfold isCRLFTab, CR, LF, TAB in Hc. unfold isSpace.
    repeat (apply orb_prop in Hc; destruct Hc as [Hc|Hc]);
      apply N.eqb_eq in Hc; subst c; reflexivity. }
  split; exact H.
Qed.

Lemma spaceRun_space : reads_only isSpace spaceRun.
Proof. cbn. auto. Qed.

Lemma visible_collapse s : visible (collapse s) = visible s.
Proof.
  unfold collapse. rewrite visible_trim.
  rewrite (replace_space_visible spaceRun (fun _ => [SP]) eq_refl spaceRun_space
             (fun _ => eq_refl)).
  apply (replace_space_visible lineBreaks (fun _ => [SP]) eq_refl lineBreaks_space
           (fun _ => eq_refl)).
Qed.

(** ** The shape of a collapsed text *)

Lemma run_spaces_first o x cs :
  exists o' others,
    run (Star true (Chr isSpace)) (MState o x cs) =
    MState o' (trimStart x) cs :: others.
Proof.
  revert o; induction x as [|c x IH]; intros o.
  - exists o, []. reflexivity.
  - rewrite run_star_greedy. cbn [trimStart].
    destruct (isSpace c).
    + destruct (IH (Some c)) as (o' & others & ->). eexists. eexists. reflexivity.
    + eexists. eexists. reflexivity.
Qed.

Lemma exec_spaceRun_pair o c1 c2 x :
  isSpace c1 = true -> isSpace c2 = true ->
  exists st, exec spaceRun o (c1 :: c2 :: x) = Some st /\ rest st = trimStart x.
Proof.
  intros H1 H2. unfold exec, spaceRun.
  rewrite run_chr_cons, H1, run_chr_cons, H2.
  destruct (run_spaces_first (Some c2) x []) as (o' & others & ->).
  eexists. split; reflexivity.
Qed.

Lemma exec_spaceRun_some o a st :
  exec spaceRun o a = Some st ->
  exists c1 c2 x, a = c1 :: c2 :: x /\ isSpace c1 = true /\ isSpace c2 = true /\
                  rest st = trimStart x.
Proof.
  unfold exec, spaceRun. destruct a as [|c1 a]; [discriminate|].
  rewrite run_chr_cons. destruct (isSpace c1) eqn:E1; [|discriminate].
  destruct a as [|c2 x]; [discriminate|].
  rewrite run_chr_cons. destruct (isSpace c2) eqn:E2; [|discriminate].
  destruct (run_spaces_first (Some c2) x []) as (o' & others & ->).
  intros H. injection H as <-. exists c1, c2, x. auto.
Qed.

Lemma starts_solid_trimStart s : starts_solid (trimStart s) = true.
Proof.
  induction s as [|c s IH]; [reflexivity|]. cbn [trimStart].
  destruct (isSpace c) eqn:E; [exact IH|]. cbn. rewrite E. reflexivity.
Qed.

Lemma single_spaced_cons c (s : str) :
  single_spaced (c :: s) =
  (negb (isSpace c) || starts_solid s) && single_spaced s.
Proof.
  destruct s as [|d s]; cbn; [destruct (isSpace c); reflexivity|].
  destruct (isSpace c), (isSpace d); reflexivity.
Qed.

(** After the second [replace] of the collapsing no two white-space
    characters are neighbours. *)
Lemma spaceRun_single_spaced : forall o a,
  single_spaced (replace_from spaceRun (fun _ => [SP]) 0 o a) = true /\
  (starts_solid a = true ->
   starts_solid (replace_from spaceRun (fun _ => [SP]) 0 o a) = true).
Proof.
  apply (scan_ind spaceRun
           (fun o a =>
              single_spaced (replace_from spaceRun (fun _ => [SP]) 0 o a) = true /\
              (starts_solid a = true ->
               starts_solid (replace_from spaceRun (fun _ => [SP]) 0 o a) = true))
           eq_refl).
  - intros o. rewrite replace_from_nil by reflexivity. auto.
  - intros o c a He [IH1 IH2]. rewrite replace_from_keep by exact He.
    split; [|intros H; exact H].
    rewrite single_spaced_cons, IH1, andb_true_r.
    destruct (isSpace c) eqn:Ec; [|reflexivity]. cbn [negb orb].
    apply IH2. destruct a as [|d a]; [reflexivity|]. cbn.
    destruct (isSpace d) eqn:Ed; [|reflexivity].
    destruct (exec_spaceRun_pair o c d a Ec Ed) as (st & Hs & _). congruence.
  - intros o l st Hl He Hp [IH1 IH2].
    destruct (replace_from_match spaceRun (fun _ => [SP]) o _ st eq_refl He)
      as (l' & _ & Ha & _ & ->).
    apply app_inv_tail in Ha. subst l'.
    destruct (exec_spaceRun_some _ _ _ He) as (c1 & c2 & x & Hx & H1 & _ & Hr).
    split.
    + cbn [app]. rewrite single_spaced_cons, IH1, andb_true_r.
      rewrite IH2; [apply orb_true_r|]. rewrite Hr. apply starts_solid_trimStart.
    + rewrite Hx. cbn. rewrite H1. discriminate.
Qed.

Lemma trimStart_suffix s : exists w, s = w ++ trimStart s /\ blank w = true.
Proof.
  induction s as [|c s IH]; [exists []; auto|]. cbn [trimStart].
  destruct (isSpace c) eqn:E; [|exists []; auto].
  destruct IH as (w & Hw & Hb). exists (c :: w). unfold blank in *.
  cbn. rewrite E, Hb. split; [f_equal; exact Hw|reflexivity].
Qed.

Lemma trimEnd_prefix s : exists w, s = trimEnd s ++ w /\ blank w = true.
Proof.
  unfold trimEnd. destruct (trimStart_suffix (rev s)) as (w & Hw & Hb).
  exists (rev w). split.
  - rewrite <- rev_app_distr, <- Hw, rev_involutive. reflexivity.
  - rewrite blank_rev. exact Hb.
Qed.

Lemma single_spaced_tail c (s : str) :
  single_spaced (c :: s) = true -> single_spaced s = true.
Proof. rewrite single_spaced_cons. intros H. apply andb_prop in H. tauto. Qed.

Lemma single_spaced_suffix (w s : str) :
  single_spaced (w ++ s) = true -> single_spaced s = true.
Proof.
  induction w as [|c w IH]; [exact (fun H => H)|].
  intros H. apply IH. exact (single_spaced_tail c _ H).
Qed.

Lemma starts_solid_app (p w : str) :
  starts_solid (p ++ w) = true -> p <> [] -> starts_solid p = true.
Proof. destruct p; [congruence|exact (fun H _ => H)]. Qed.

Lemma single_spaced_prefix (p : str) : forall w : str,
  single_spaced (p ++ w) = true -> single_spaced p = true.
Proof.
  induction p as [|c p IH]; intros w H; [reflexivity|].
  cbn [app] in H. rewrite single_spaced_cons in *.
  apply andb_prop in H. destruct H as [H1 H2].
  rewrite (IH w H2), andb_true_r.
  destruct (isSpace c); [|reflexivity]. cbn [negb orb] in *.
  destruct p as [|d p]; [reflexivity|exact H1].
Qed.

Lemma trim_single_spaced s : single_spaced s = true -> single_spaced (trim s) = true.
Proof.
  intros H. unfold trim.
  destruct (trimStart_suffix s) as (w & Hw & _).
  rewrite Hw in H. apply single_spaced_suffix in H.
  destruct (trimEnd_prefix (trimStart s)) as (w' & Hw' & _).
  rewrite Hw' in H. exact (single_spaced_prefix _ _ H).
Qed.

Lemma trim_trimmed s : trimmed (trim s) = true.
Proof.
  unfold trimmed, trim. apply andb_true_intro. split.
  - destruct (trimEnd_prefix (trimStart s)) as (w & Hw & _).
    destruct (trimEnd (trimStart s)) as [|c p] eqn:E; [reflexivity|].
    pose proof (starts_solid_trimStart s) as H. rewrite Hw in H. exact H.
  - unfold trimEnd. rewrite rev_involutive. apply starts_solid_trimStart.
Qed.

Lemma collapse_tidy s :
  trimmed (collapse s) = true /\ single_spaced (collapse s) = true.
Proof.
  unfold collapse. split; [apply trim_trimmed|].
  apply trim_single_spaced. apply spaceRun_single_spaced.
Qed.

(** ** Collapsing a collapsed text *)

Lemma trimStart_solid s : starts_solid s = true -> trimStart s = s.
Proof.
  destruct s as [|c s]; [reflexivity|]. cbn.
  destruct (isSpace c); [discriminate|reflexivity].
Qed.

Lemma trim_fixed s : trimmed s = true -> trim s = s.
Proof.
  unfold trimmed, trim, trimEnd. intros H. apply andb_prop in H.
  destruct H as [H1 H2].
  rewrite (trimStart_solid s H1), (trimStart_solid _ H2). apply rev_involutive.
Qed.

Lemma exec_lineBreaks_some o a st :
  exec lineBreaks o a = Some st -> exists c x, a = c :: x /\ isCRLFTab c = true.
Proof.
  unfold exec, lineBreaks, Plus. destruct a as [|c x]; [discriminate|].
  rewrite run_chr_cons. destruct (isCRLFTab c) eqn:E; [|discriminate].
  intros _. exists c, x. auto.
Qed.

Lemma single_spaced_inside (x : str) c1 c2 (z : str) :
  single_spaced (x ++ c1 :: c2 :: z) = true ->
  isSpace c1 = true -> isSpace c2 = true -> False.
Proof.
  intros H H1 H2. apply single_spaced_suffix in H.
  cbn in H. rewrite H1, H2 in H. discriminate.
Qed.

Lemma collapse_fixed (y : str) :
  (forall c, In c y -> isCRLFTab c = false) ->
  single_spaced y = true -> trimmed y = true -> collapse y = y.
Proof.
  intros Hc Hs Ht. unfold collapse, replace.
  rewrite (replace_no_match lineBreaks (fun _ => [SP]) y None eq_refl).
  - rewrite (replace_no_match spaceRun (fun _ => [SP]) y None eq_refl).
    + apply trim_fixed. exact Ht.
    + intros x z ->.
      destruct (exec spaceRun (after_text x None) z) as [st|] eqn:E; [|reflexivity].
      destruct (exec_spaceRun_some _ _ _ E) as (c1 & c2 & z' & -> & H1 & H2 & _).
      destruct (single_spaced_inside x c1 c2 z' Hs H1 H2).
  - intros x z ->.
    destruct (exec lineBreaks (after_text x None) z) as [st|] eqn:E; [|reflexivity].
    destruct (exec_lineBreaks_some _ _ _ E) as (c & z' & -> & H).
    rewrite (Hc c) in H; [discriminate|].
    apply in_or_app. right. left. reflexivity.
Qed.

Lemma isCRLF_CRLFTab c : isCRLF c = true -> isCRLFTab c = true.
Proof. unfold isCRLF, isCRLFTab. intros ->. reflexivity. Qed.

Lemma test_emptyLine_no_line_end (y : str) :
  (forall c, In c y -> isCRLFTab c = false) -> test emptyLine y = false.
Proof.
  intros Hc. apply not_true_false. unfold test. rewrite test_from_emptyLine.
  intros (x & w & c & z & -> & _ & _ & H).
  apply isCRLF_CRLFTab in H. rewrite (Hc c) in H; [discriminate|].
  apply in_or_app. right. apply in_or_app. right. left. reflexivity.
Qed.

Lemma preserveComments_no_dashes (y : str) :
  occurs (js "--") y = false -> preserveComments y = y.
Proof.
  intros Ho. unfold preserveComments, replace.
  apply (replace_no_match lineComment toBlockComment y None eq_refl).
  intros x z ->.
  destruct (starts_with (js "--") z) eqn:E.
  - apply starts_with_iff in E. destruct E as [z' ->].
    assert (occurs (js "--") (x ++ js "--" ++ z') = true); [|congruence].
    apply occurs_spec. exists x, z'. reflexivity.
  - unfold lineComment. apply no_dashes_exec. exact E.
Qed.

(** *** X8 *)

(** X8: in both modes the result of [toOneLiner] neither starts nor ends
    with white space, and no two white-space characters of it stand side
    by side. *)
Theorem toOneLiner_tidy (code : str) (opt : commentOption) :
  trimmed (toOneLiner code opt) = true /\
  single_spaced (toOneLiner code opt) = true.
Proof. unfold toOneLiner. apply collapse_tidy. Qed.

(** *** X9 *)

(** X9: [toOneLiner], in either mode, returns unchanged what
    [toOneLiner] returned, provided "--" does not occur in it. *)
Theorem toOneLiner_idempotent (code : str) (opt opt' : commentOption) :
  occurs (js "--") (toOneLiner code opt) = false ->
  toOneLiner (toOneLiner code opt) opt' = toOneLiner code opt.
Proof.
  intros Ho. set (y := toOneLiner code opt) in *.
  assert (Hc : forall c, In c y -> isCRLFTab c = false).
  { intros c. unfold y, toOneLiner. apply collapse_chars. }
  assert (Ht : trimmed y = true /\ single_spaced y = true).
  { unfold y, toOneLiner. apply collapse_tidy. }
  destruct Ht as [Ht Hs].
  unfold toOneLiner at 1. fold y.
  replace (match opt' with
           | preserve => preserveComments y
           | delete => deleteAllComments y
           end) with y.
  - apply collapse_fixed; assumption.
  - destruct opt'.
    + symmetry. apply preserveComments_no_dashes. exact Ho.
    + symmetry. rewrite (deleteAllComments_no_comment y (no_dashes_no_comment y Ho)).
      apply strip_no_match; [reflexivity|].
      apply test_emptyLine_no_line_end. exact Hc.
Qed.

Lemma toOneLiner_idempotent_witness :
  toOneLiner (toOneLiner (js "if x then -- note" ++ [LF; TAB] ++ js "y = a - b  end")
                         delete) preserve =
  toOneLiner (js "if x then -- note" ++ [LF; TAB] ++ js "y = a - b  end") delete.
Proof. apply toOneLiner_idempotent. reflexivity. Defined.

(** *** X10 *)

(** X10: on a text in which "--" does not occur, [toOneLiner] changes
    white space only, in both modes. *)
Theorem toOneLiner_keeps_uncommented_text (code : str) (opt : commentOption) :
  occurs (js "--") code = false ->
  visible (toOneLiner code opt) = visible code.
Proof.
  intros Ho. unfold toOneLiner. rewrite visible_collapse. destruct opt.
  - rewrite (preserveComments_no_dashes code Ho). reflexivity.
  - rewrite (deleteAllComments_no_comment code (no_dashes_no_comment code Ho)).
    apply visible_strip_emptyLine.
Qed.

Lemma toOneLiner_keeps_uncommented_text_witness :
  visible (toOneLiner (js "a = b - c" ++ [LF; LF; TAB] ++ js "print(a)") delete) =
  visible (js "a = b - c" ++ [LF; LF; TAB] ++ js "print(a)").
Proof. apply toOneLiner_keeps_uncommented_text. reflexivity. Defined.

(** ** The level of a closer *)

Lemma run_closing_none e o (a : str) cs :
  starts_with (RBR :: e ++ [RBR]) a = false ->
  run closing (MState o a ((1, e) :: cs)) = [].
Proof.
  intros Hs.
  destruct (run closing (MState o a ((1, e) :: cs))) as [|st l] eqn:E;
    [reflexivity|].
  assert (Hin : In st (run closing (MState o a ((1, e) :: cs))))
    by (rewrite E; left; reflexivity).
  pose proof (run_closing_sound e o a cs st Hin) as Ha.
  assert (Ht : starts_with (RBR :: e ++ [RBR]) a = true); [|congruence].
  apply starts_with_iff. exists (rest st). rewrite Ha at 1.
  cbn. rewrite <- app_assoc. reflexivity.
Qed.

(** The lazy body stops at the first place where the closing bracket of
    level [e] stands. *)
Lemma run_body_first_closer (e y : str) (body : str) : forall o cs,
  (forall (b1 : str) d (b2 : str), body = b1 ++ d :: b2 ->
     starts_with (RBR :: e ++ [RBR]) (d :: b2 ++ RBR :: e ++ RBR :: y) = false) ->
  exists others,
    run body_closing (MState o (body ++ RBR :: e ++ RBR :: y) ((1, e) :: cs)) =
    MState (Some RBR) y ((1, e) :: cs) :: others.
Proof.
  unfold body_closing.
  induction body as [|d body IH]; intros o cs Hb.
  - cbn [app]. rewrite run_lazy_then, run_closing_here. eexists. reflexivity.
  - cbn [app]. rewrite run_lazy_then.
    rewrite run_closing_none by (apply (Hb [] d body); reflexivity).
    rewrite anyChar_true. cbn [app]. apply IH.
    intros b1 d' b2 ->. apply (Hb (d :: b1) d' b2). reflexivity.
Qed.

Lemma firstn_prefix (c l p : str) (z : str) :
  l ++ p = c ++ z -> length c <= length l -> exists z', l = c ++ z'.
Proof.
  revert l; induction c as [|x c IH]; intros l H Hl.
  - exists l. reflexivity.
  - destruct l as [|y l]; [cbn in Hl; lia|].
    cbn in H. injection H as -> H. cbn in Hl.
    destruct (IH l H) as [z' ->]; [lia|]. exists z'. reflexivity.
Qed.

Lemma closer_length n : length (closer n) = S (S n).
Proof.
  unfold closer, eqs. cbn. rewrite length_app, repeat_length. cbn. lia.
Qed.

(** When the closer of level [n] behind [body] is the first one of that
    level, no closer of level [n] stands at a place inside [body]. *)
Lemma first_closer_inside n (body y : str) (b1 : str) d (b2 : str) :
  occurrences (closer n) (body ++ closer n) = [length body] ->
  body = b1 ++ d :: b2 ->
  starts_with (closer n) (d :: b2 ++ closer n ++ y) = false.
Proof.
  intros Ho ->.
  destruct (starts_with (closer n) (d :: b2 ++ closer n ++ y)) eqn:E;
    [exfalso|reflexivity].
  apply starts_with_iff in E. destruct E as [z Hz].
  destruct (firstn_prefix (closer n) (d :: b2 ++ closer n) y z) as [z' Hz'].
  { rewrite <- Hz. cbn. rewrite <- app_assoc. reflexivity. }
  { rewrite closer_length. cbn. rewrite length_app, closer_length. lia. }
  assert (Hi : In (0 + length b1)
                  (occurrences (closer n) ((b1 ++ d :: b2) ++ closer n))).
  { apply occurrences_from_spec. exists b1, z'. split; [|reflexivity].
    rewrite <- app_assoc. cbn [app]. f_equal. exact Hz'. }
  rewrite Ho in Hi. destruct Hi as [Hi|[]].
  rewrite length_app in Hi. cbn in Hi. lia.
Qed.

(** A long-bracket comment ends at the first closer of its level. *)
Lemma exec_multiLineRegex_first_closer o n (body y : str) :
  occurrences (closer n) (body ++ closer n) = [length body] ->
  exists st, exec multiLineRegex o (opener n ++ body ++ closer n ++ y) = Some st
             /\ rest st = y.
Proof.
  intros Ho.
  unfold exec. rewrite multiLineRegex_eq, opener_app, run_Lit_then, run_level_here.
  rewrite closer_app.
  destruct (run_body_first_closer (eqs n) y body (Some LBR) []) as [others ->].
  { intros b1 d b2 Hb.
    pose proof (first_closer_inside n body y b1 d b2 Ho Hb) as H.
    rewrite closer_app in H. exact H. }
  eexists. split; reflexivity.
Qed.

Lemma exec_multiLineRegex_other o c (a : str) :
  N.eqb c DASH = false -> exec multiLineRegex o (c :: a) = None.
Proof.
  intros Hc. unfold exec. rewrite multiLineRegex_eq.
  rewrite run_Lit_then_fail; [reflexivity|].
  change (js "--[") with [DASH; DASH; LBR].
  cbn [starts_with]. rewrite N.eqb_sym, Hc. reflexivity.
Qed.

Lemma del_multi_before (pre : str) : forall o (a : str),
  free_of DASH pre = true ->
  del multiLineRegex o (pre ++ a) = pre ++ del multiLineRegex (after_text pre o) a.
Proof.
  induction pre as [|c pre IH]; intros o a H; [reflexivity|].
  unfold free_of in H. cbn [forallb] in H. apply andb_prop in H.
  destruct H as [Hc Hp]. apply negb_true_iff in Hc.
  cbn [app]. rewrite (del_keep multiLineRegex o c (pre ++ a)
                        (exec_multiLineRegex_other o c (pre ++ a) Hc)).
  rewrite after_text_cons. f_equal. apply IH. exact Hp.
Qed.

Lemma del_multi_no_long o (s : str) : ~ HasLong s -> del multiLineRegex o s = s.
Proof.
  intros Hs. apply (del_no_match multiLineRegex multiLineRegex_consumes).
  intros x y ->.
  destruct (exec multiLineRegex (after_text x o) y) as [st|] eqn:E; [|reflexivity].
  exfalso. apply Hs.
  destruct (exec_multiLineRegex_sound _ _ _ E) as (k & body & ->).
  exists x, k, body, (rest st). reflexivity.
Qed.

Lemma HasLong_behind (x s : str) : HasLong s -> HasLong (x ++ s).
Proof.
  intros (x' & k & body & y & ->). exists (x ++ x'), k, body, y.
  rewrite <- app_assoc. reflexivity.
Qed.

(** The long-bracket pass removes a comment that ends at the first
    closer of its level, and nothing around it. *)
Lemma strip_comment_between n (pre body post : str) :
  free_of DASH pre = true ->
  occurrences (closer n) (body ++ closer n) = [length body] ->
  ~ HasLong post ->
  strip multiLineRegex (pre ++ opener n ++ body ++ closer n ++ post) = pre ++ post.
Proof.
  intros Hpre Ho Hpost.
  change (strip multiLineRegex ?s) with (del multiLineRegex None s).
  rewrite (del_multi_before pre None _ Hpre). f_equal.
  destruct (exec_multiLineRegex_first_closer (after_text pre None) n body post Ho)
    as (st & He & Hr).
  assert (Hs : opener n ++ body ++ closer n ++ post =
               (opener n ++ body ++ closer n) ++ rest st).
  { rewrite Hr, <- !app_assoc. reflexivity. }
  rewrite Hs in He |- *.
  rewrite (del_match multiLineRegex multiLineRegex_consumes _ _ st); [|discriminate|exact He].
  rewrite Hr. apply del_multi_no_long. exact Hpost.
Qed.

Lemma occurrences_free c (p : str) (s : str) : forall i,
  free_of c s = true -> occurrences_from i (c :: p) s = [].
Proof.
  induction s as [|d s IH]; intros i H; [reflexivity|].
  unfold free_of in H. cbn [forallb] in H. apply andb_prop in H.
  destruct H as [Hd Hs]. apply negb_true_iff in Hd.
  cbn [occurrences_from starts_with]. rewrite N.eqb_sym, Hd. cbn [andb app].
  apply IH. exact Hs.
Qed.

Lemma free_of_app c (a b : str) :
  free_of c (a ++ b) = free_of c a && free_of c b.
Proof. apply forallb_app. Qed.

Lemma free_of_cons c d (s : str) :
  free_of c (d :: s) = negb (N.eqb d c) && free_of c s.
Proof. reflexivity. Qed.

(** Behind an opener that only text without "-" follows, the opener
    holds the one "--". *)
Lemma opener_only_dashes n (s : str) :
  free_of DASH s = true -> occurrences (js "--") (opener n ++ s) = [0].
Proof.
  intros Hs. rewrite opener_dashes. unfold occurrences.
  change (js "--") with [DASH; DASH]. cbn [app occurrences_from starts_with].
  rewrite !N.eqb_refl. change (N.eqb DASH LBR) with false. cbn [andb app].
  rewrite occurrences_free; [reflexivity|].
  rewrite free_of_app, (eqs_free DASH n eq_refl), free_of_cons, Hs.
  reflexivity.
Qed.

(** A closer of another level behind text without "]" is no closer of
    level [n]. *)
Lemma closer_of_other_level n m (other : str) :
  n <> m -> free_of RBR other = true ->
  occurs (closer n) (other ++ closer m) = false.
Proof.
  intros Hnm Hb. apply not_true_false. rewrite occurs_spec.
  intros (x & y & H). rewrite !closer_app in H.
  unfold closer in H. cbn [app] in H.
  destruct (first_occurrence RBR other _ _ _ Hb H) as [[_ H1]|(l3 & _ & H1)].
  - replace (eqs m ++ [RBR]) with (eqs m ++ RBR :: []) in H1 by reflexivity.
    apply (level_inj RBR) in H1; [|reflexivity]. destruct H1. congruence.
  - destruct (first_occurrence RBR (eqs m) [] l3 _ (eqs_free RBR m eq_refl) H1)
      as [[_ H2]|(l4 & _ & H2)].
    + destruct (eqs n); discriminate.
    + destruct l4; discriminate.
Qed.

(** *** C3 *)

(** C3: whatever the level [n], the comment opened at level [n] ends at
    the first closer of level [n]: closers of other levels before it
    belong to the comment, which is removed as a whole, the text around
    it staying; a comment that only a closer of another level follows is
    no comment, and stays; and "--[==[ a ]=] b ]==]" is removed as a
    whole. *)
Theorem closer_level_must_match (n m : nat) (pre body post other : str) :
  free_of DASH pre = true ->
  occurrences (closer n) (body ++ closer n) = [length body] ->
  hasComments (pre ++ post) = false ->
  test emptyLine (pre ++ post) = false ->
  n <> m ->
  free_of RBR other = true ->
  free_of DASH other = true ->
  test emptyLine (opener n ++ other ++ closer m) = false ->
  deleteAllComments (pre ++ opener n ++ body ++ closer n ++ post) = pre ++ post /\
  hasComments (opener n ++ other ++ closer m) = false /\
  deleteAllComments (opener n ++ other ++ closer m) =
    opener n ++ other ++ closer m /\
  deleteAllComments (js "--[==[ a ]=] b ]==]") = [].
Proof.
  intros Hpre Ho Hc He Hnm Hr Hd He'.
  assert (Hdd : occurrences (js "--") (opener n ++ other ++ closer m) = [0]).
  { apply opener_only_dashes.
    rewrite free_of_app, Hd. unfold closer.
    rewrite free_of_cons, free_of_app, (eqs_free DASH m eq_refl). reflexivity. }
  assert (Hno : occurs (closer n) (other ++ closer m) = false)
    by (apply closer_of_other_level; assumption).
  split; [|split; [|split]].
  - pose proof Hc as Hc'. apply hasComments_false in Hc'. destruct Hc' as [Hl _].
    assert (Hs : strip multiLineRegex (pre ++ opener n ++ body ++ closer n ++ post)
                 = pre ++ post).
    { apply strip_comment_between; [exact Hpre|exact Ho|].
      intros H. apply Hl. apply HasLong_behind. exact H. }
    transitivity (deleteAllComments (pre ++ post)).
    + unfold deleteAllComments. rewrite Hs.
      unfold hasComments in Hc. apply orb_false_elim in Hc. destruct Hc as [Hc _].
      rewrite (strip_no_match multiLineRegex (pre ++ post) eq_refl Hc). reflexivity.
    + rewrite (deleteAllComments_no_comment _ Hc).
      apply strip_no_match; [reflexivity|exact He].
  - exact (unterminated_hasComments [] n (other ++ closer m) Hdd Hno).
  - pose proof (unterminated_deleteAllComments [] n (other ++ closer m) Hdd Hno)
      as Hu.
    cbn [app] in Hu. rewrite Hu.
    apply strip_no_match; [reflexivity|exact He'].
  - reflexivity.
Qed.

Lemma closer_level_must_match_witness :
  deleteAllComments (js "x = 1 " ++ opener 3 ++ js " a ]=] b ]] c " ++ closer 3
                     ++ js " y = 2") = js "x = 1 " ++ js " y = 2" /\
  hasComments (opener 3 ++ js " a [b " ++ closer 1) = false /\
  deleteAllComments (opener 3 ++ js " a [b " ++ closer 1) =
    opener 3 ++ js " a [b " ++ closer 1 /\
  deleteAllComments (js "--[==[ a ]=] b ]==]") = [].
Proof.
  apply (closer_level_must_match 3 1 (js "x = 1 ") (js " a ]=] b ]] c ")
           (js " y = 2") (js " a [b "));
    try reflexivity.
  discriminate.
Defined.

(** ** The beautifier *)








(** *** Calls that can fail *)

Lemma bind_inv {A B : Type} (c : completion A) (k : A -> completion B) b :
  bind c k = Normal b -> exists a, c = Normal a /\ k a = Normal b.
Proof. destruct c as [a|e]; [|discriminate]. intros H. exists a. auto. Qed.

Lemma alloc_inv maxLength (s out : str) : alloc maxLength s = Normal out -> out = s.
Proof.
  unfold alloc. destruct (N.leb _ _); [|discriminate].
  intros H. injection H as <-. reflexivity.
Qed.

Lemma str_plus_inv maxLength (a b out : str) :
  str_plus maxLength a b = Normal out -> out = a ++ b.
Proof. apply alloc_inv. Qed.

Lemma repeat_str_inv maxLength (s out : str) count :
  repeat_str maxLength s count = Normal out ->
  (0 <= count)%Z /\ out = concat (repeat s (Z.to_nat count)).
Proof.
  unfold repeat_str. destruct (Z.ltb_spec count 0) as [Hc|Hc]; [discriminate|].
  intros H. apply alloc_inv in H. auto.
Qed.



Lemma replace_str_no_match maxLength r (f : match_info -> str) (s : str) :
  test r s = false -> replace_str maxLength r f s = Normal s.
Proof. intros H. unfold replace_str. rewrite H. reflexivity. Qed.

(** *** The lines given to the loop *)






(** *** One line of the loop *)

(** An iteration that completes skips a blank line, and emits any other
    line, trimmed, behind [level_before] indent units. *)
Lemma loop_body_inv maxLength i (formatted line0 : str) i' (formatted' : str) :
  loop_body maxLength (i, formatted) line0 = Normal (i', formatted') ->
  (trim line0 = [] /\ i' = i /\ formatted' = formatted) \/
  (trim line0 <> [] /\
   (0 <= level_before i (trim line0))%Z /\
   i' = level_after (level_before i (trim line0)) (trim line0) /\
   formatted' =
     formatted
       ++ concat (repeat indentChar (Z.to_nat (level_before i (trim line0))))
       ++ trim line0 ++ [LF]).
Proof.
  unfold loop_body. destruct (trim line0) as [|c l] eqn:E.
  - intros H. injection H as <- <-. left. auto.
  - fold (level_before i (c :: l)). intros H. right.
    apply bind_inv in H. destruct H as (pad & Hp & H).
    apply bind_inv in H. destruct H as (padded & H1 & H).
    apply bind_inv in H. destruct H as (ended & H2 & H).
    apply bind_inv in H. destruct H as (f & H3 & H).
    apply repeat_str_inv in Hp. destruct Hp as [Hi ->].
    apply str_plus_inv in H1, H2, H3. subst padded ended f.
    injection H as <- <-.
    split; [discriminate|]. split; [exact Hi|]. split; [reflexivity|].
    rewrite <- !app_assoc. reflexivity.
Qed.

Lemma loop_body_blank maxLength st (line0 : str) :
  blank line0 = true -> loop_body maxLength st line0 = Normal st.
Proof.
  intros H. apply trim_nil in H. unfold loop_body. destruct st as [i f].
  rewrite H. reflexivity.
Qed.

Lemma for_of_blank maxLength ls : forall st,
  (forall l, In l ls -> blank l = true) -> for_of maxLength ls st = Normal st.
Proof.
  induction ls as [|l ls IH]; intros st H; [reflexivity|].
  cbn [for_of]. rewrite loop_body_blank by (apply H; left; reflexivity).
  cbn [bind]. apply IH. intros l' Hl. apply H. right. exact Hl.
Qed.




Lemma visible_nil_blank (s : str) : visible s = [] -> blank s = true.
Proof.
  induction s as [|c s IH]; [reflexivity|]. rewrite visible_cons.
  unfold blank in *. cbn. destruct (isSpace c); [exact IH|discriminate].
Qed.

Lemma blank_trimmed_nil (s : str) : blank s = true -> trimmed s = true -> s = [].
Proof.
  destruct s as [|c s]; [reflexivity|]. unfold blank, trimmed. cbn [forallb starts_solid].
  intros H1 H2. apply andb_prop in H1, H2. destruct H1 as [H1 _], H2 as [H2 _].
  rewrite H1 in H2. discriminate.
Qed.

(** *** Blank input *)

(** A pattern whose matches begin with a character that is no white
    space matches nowhere in a blank text. *)
Lemma test_blank (r : regex) (s : str) :
  (forall o a st, exec r o a = Some st ->
                  exists c x, a = c :: x /\ isSpace c = false) ->
  blank s = true -> test r s = false.
Proof.
  intros Hr Hb. apply not_true_false. unfold test. rewrite test_from_true.
  intros (x & y & -> & H).
  destruct (exec r (after_text x None) y) as [st|] eqn:E; [|congruence].
  destruct (Hr _ _ _ E) as (c & z & -> & Hc).
  unfold blank in Hb. rewrite forallb_app in Hb. cbn in Hb.
  rewrite Hc in Hb. cbn in Hb. rewrite andb_false_r in Hb. discriminate.
Qed.

Lemma run_Alts_head ls : forall st st',
  In st' (run (Alts ls) st) -> exists l, In l ls /\ starts_with l (rest st) = true.
Proof.
  induction ls as [|l ls IH]; intros st st' H.
  - cbn in H. destruct H.
  - destruct st as [o a cs]. destruct ls as [|l2 ls].
    + cbn [Alts] in H. rewrite run_Lit in H.
      destruct (starts_with l a) eqn:E; [|destruct H].
      exists l. split; [left; reflexivity|exact E].
    + change (Alts (l :: l2 :: ls)) with (Alt (Lit l) (Alts (l2 :: ls))) in H.
      change (run (Alt ?r1 ?r2) ?s) with (run r1 s ++ run r2 s) in H.
      apply in_app_or in H. destruct H as [H|H].
      * rewrite run_Lit in H. destruct (starts_with l a) eqn:E; [|destruct H].
        exists l. split; [left; reflexivity|exact E].
      * destruct (IH _ _ H) as (l' & Hl & Hs).
        exists l'. split; [right; exact Hl|exact Hs].
Qed.

(** A match of a keyword pattern begins with one of its keywords. *)
Lemma exec_keyword_head ls o (a : str) st :
  exec (WordB @@ Group 1 (Alts ls) @@ WordB) o a = Some st ->
  exists l, In l ls /\ starts_with l a = true.
Proof.
  unfold exec. intros H.
  assert (Hin : In st (run (WordB @@ Group 1 (Alts ls) @@ WordB) (MState o a []))).
  { match type of H with
    | hd_error ?t = _ => change (In st t); destruct t as [|s l]; [discriminate|]
    end.
    injection H as ->. left. reflexivity. }
  clear H. rewrite run_seq in Hin. apply in_flat_map in Hin.
  destruct Hin as (s0 & H0 & H).
  assert (s0 = MState o a []) as ->.
  { cbn in H0. destruct (xorb _ _); [|destruct H0].
    destruct H0 as [<-|[]]. reflexivity. }
  rewrite run_seq in H. apply in_flat_map in H. destruct H as (s1 & H1 & _).
  change (run (Group 1 ?r) ?s)
    with (map (fun s' => MState (prev s') (rest s')
                 ((1, firstn (length (rest s) - length (rest s')) (rest s)) :: caps s'))
              (run r s)) in H1.
  apply in_map_iff in H1. destruct H1 as (s' & _ & H1).
  exact (run_Alts_head ls _ _ H1).
Qed.

Lemma keyword_head_solid ls o (a : str) st :
  forallb (fun l : str => nonempty l && starts_solid l) ls = true ->
  exec (WordB @@ Group 1 (Alts ls) @@ WordB) o a = Some st ->
  exists c x, a = c :: x /\ isSpace c = false.
Proof.
  intros Hls H. destruct (exec_keyword_head ls o a st H) as (l & Hl & Hs).
  rewrite forallb_forall in Hls. specialize (Hls l Hl).
  apply andb_prop in Hls. destruct Hls as [Hn Hsol].
  apply starts_with_app in Hs. destruct Hs as [y ->].
  destruct l as [|c l]; [discriminate|].
  exists c, (l ++ y). split; [reflexivity|].
  cbn in Hsol. apply negb_true_iff in Hsol. exact Hsol.
Qed.

Lemma semicolon_head o (a : str) st :
  exec semicolon o a = Some st -> exists c x, a = c :: x /\ isSpace c = false.
Proof.
  unfold exec, semicolon. destruct a as [|c x]; [discriminate|].
  rewrite run_ch_last. destruct (N.eqb 59 c) eqn:E; [|discriminate].
  apply N.eqb_eq in E. subst c. intros _. exists 59%N, x. auto.
Qed.

Lemma closeParen_head o (a : str) st :
  exec closeParen o a = Some st -> exists c x, a = c :: x /\ isSpace c = false.
Proof.
  unfold exec, closeParen. destruct a as [|c x]; [discriminate|].
  rewrite run_ch_cons. destruct (N.eqb 41 c) eqn:E; [|discriminate].
  apply N.eqb_eq in E. subst c. intros _. exists 41%N, x. auto.
Qed.

Lemma processedCode_blank maxLength (code : str) :
  blank code = true -> processedCode maxLength code = Normal code.
Proof.
  intros Hb. unfold processedCode.
  rewrite replace_str_no_match by (apply test_blank; [apply semicolon_head|exact Hb]).
  cbn [bind].
  rewrite replace_str_no_match by (apply test_blank; [apply closeParen_head|exact Hb]).
  cbn [bind].
  rewrite replace_str_no_match
    by (apply test_blank; [intros o a st; apply keyword_head_solid; reflexivity|exact Hb]).
  cbn [bind].
  apply replace_str_no_match.
  apply test_blank; [intros o a st; apply keyword_head_solid; reflexivity|exact Hb].
Qed.

Lemma split_blank (s : str) :
  blank s = true -> forall l, In l (split LF s) -> blank l = true.
Proof.
  induction s as [|c s IH]; intros Hb l H.
  - destruct H as [<-|[]]. reflexivity.
  - unfold blank in Hb. cbn [forallb] in Hb. apply andb_prop in Hb.
    destruct Hb as [Hc Hs]. specialize (IH Hs).
    cbn [split] in H. destruct (N.eqb c LF).
    + destruct H as [<-|H]; [reflexivity|apply IH; exact H].
    + destruct (split LF s) as [|l0 ls].
      * destruct H as [<-|[]]. unfold blank. cbn. rewrite Hc. reflexivity.
      * destruct H as [<-|H].
        -- unfold blank. cbn [forallb]. rewrite Hc.
           apply (IH l0). left. reflexivity.
        -- apply IH. right. exact H.
Qed.

(** On a blank input no string is built: the body of the [try] block
    completes, whatever the longest string. *)
Lemma beautify_try_blank maxLength (code : str) :
  blank code = true -> beautify_try maxLength code = Normal [].
Proof.
  intros Hb. unfold beautify_try. cbv zeta.
  rewrite (processedCode_blank maxLength code Hb). cbn [bind].
  rewrite (for_of_blank maxLength _ _ (split_blank code Hb)). cbn [bind snd].
  reflexivity.
Qed.

(** *** The scenarios of the beautifier, by evaluation *)

Example beautifyCode_nested_do :
  beautifyCode (js "do do do do") =
  Normal (js "do" ++ [LF] ++ js "  do" ++ [LF] ++ js "    do" ++ [LF]
          ++ js "      do").
Proof. vm_compute. reflexivity. Qed.

(** With strings of at most 20 code units the fourth line of the same
    input does not fit: the body of the [try] block throws, and the
    input comes back as it is, the white space around it included. *)
Example beautify_try_too_long :
  beautify_try 20 (js " do do do do ") = Throw RangeError /\
  beautifyCode_within 20 (js " do do do do ") = Normal (js " do do do do ").
Proof. vm_compute. split; reflexivity. Qed.

(** *** C4 *)

(** C4: [beautifyCode] returns to its caller for every input: it
    returns what the body of its [try] block returns, and the input
    itself when that body throws; and so it does whatever the longest
    string of the engine. *)
Theorem beautifyCode_never_throws (maxLength : N) (code : str) :
  (exists out, beautifyCode code = Normal out) /\
  beautifyCode code =
    Normal (match beautify_try maxStringLength code with
            | Normal out => out
            | Throw _ => code
            end) /\
  beautifyCode_within maxLength code =
    Normal (match beautify_try maxLength code with
            | Normal out => out
            | Throw _ => code
            end).
Proof.
  unfold beautifyCode, beautifyCode_within.
  split; [|split].
  - destruct (beautify_try maxStringLength code); cbn; eauto.
  - destruct (beautify_try maxStringLength code); reflexivity.
  - destruct (beautify_try maxLength code); reflexivity.
Qed.

(** *** C5 *)

(** C5, as stated, fails in its reason: the result is the three lines,
    but no line that the loop sees in this run holds both an opening
    keyword and the word "end". *)
Lemma no_line_with_opener_and_end :
  ~ (beautifyCode (js "if x then print(1) end") =
       Normal (js "if x then" ++ [LF] ++ js "  print(1)" ++ [LF] ++ js "end") /\
     exists processed line,
       processedCode maxStringLength (js "if x then print(1) end") = Normal processed /\
       In line (split LF processed) /\
       test hasOpener (trim line) = true /\ test hasEnd (trim line) = true).
Proof.
  intros (_ & processed & line & Hp & Hin & Ho & He).
  vm_compute in Hp. injection Hp as <-.
  vm_compute in Hin. destruct Hin as [<-|[<-|[<-|[<-|[]]]]];
    vm_compute in Ho, He; discriminate.
Qed.

(** C5, amended: "if x then print(1) end" becomes the three lines
    "if x then", "print(1)" behind two spaces, and "end".  The line
    breaks put in behind "then", behind ")" and before "end" give the
    loop the lines "if x then", " print(1)", an empty one and "end";
    none of them holds both an opening keyword and the word "end";
    "if x then" raises the indent level to 1, and "end", a closing
    keyword at the head of its line, lowers it to 0 before the line is
    written. *)
Theorem beautify_if_block :
  processedCode maxStringLength (js "if x then print(1) end") =
    Normal (js "if x then" ++ [LF] ++ js " print(1)" ++ [LF] ++ [LF] ++ js "end") /\
  split LF (js "if x then" ++ [LF] ++ js " print(1)" ++ [LF] ++ [LF] ++ js "end") =
    [js "if x then"; js " print(1)"; []; js "end"] /\
  forallb (fun line : str =>
             negb (test hasOpener (trim line) && test hasEnd (trim line)))
          [js "if x then"; js " print(1)"; []; js "end"] = true /\
  for_of maxStringLength [js "if x then"] (0%Z, []) =
    Normal (1%Z, js "if x then" ++ [LF]) /\
  for_of maxStringLength [js "if x then"; js " print(1)"; []] (0%Z, []) =
    Normal (1%Z, js "if x then" ++ [LF] ++ js "  print(1)" ++ [LF]) /\
  for_of maxStringLength [js "if x then"; js " print(1)"; []; js "end"] (0%Z, []) =
    Normal (0%Z, js "if x then" ++ [LF] ++ js "  print(1)" ++ [LF]
                 ++ js "end" ++ [LF]) /\
  beautifyCode (js "if x then print(1) end") =
    Normal (js "if x then" ++ [LF] ++ js "  print(1)" ++ [LF] ++ js "end").
Proof. vm_compute. repeat split. Qed.

(** *** X11 *)


(** *** X12 *)

(** X12: on an empty or white-space-only input [beautifyCode] returns
    the empty string. *)
Theorem beautifyCode_blank (code : str) :
  blank code = true -> beautifyCode code = Normal [].
Proof.
  intros Hb. unfold beautifyCode, beautifyCode_within.
  rewrite (beautify_try_blank maxStringLength code Hb). reflexivity.
Qed.

Lemma beautifyCode_blank_witness :
  beautifyCode (js "  " ++ [LF; TAB; CR; LF] ++ js " ") = Normal [].
Proof. apply beautifyCode_blank. reflexivity. Defined.

(** ** The lines of the beautified text *)



















(** *** X13 *)


(** *** X14 *)

(** X14: in the [delete] mode [toOneLiner] adds no text: without its
    white space the result is the input without its white space, with
    some characters left out. *)
Theorem toOneLiner_delete_only_deletes (code : str) :
  Subseq (visible (toOneLiner code delete)) (visible code).
Proof.
  unfold toOneLiner. rewrite visible_collapse. apply Subseq_visible.
  unfold deleteAllComments.
  eapply Subseq_trans; [apply strip_Subseq|].
  eapply Subseq_trans; apply strip_Subseq.
Qed.

(** *** X15 *)

(** X15: a line that holds the whole word "end" never raises the indent
    level: after it the level is what the closing keyword at the head
    of the line, if there is one, made of it. *)
Theorem loop_body_end_keeps_level (maxLength : N) (i : Z) (formatted line : str)
        (i' : Z) (formatted' : str) :
  loop_body maxLength (i, formatted) line = Normal (i', formatted') ->
  test hasEnd (trim line) = true ->
  i' = level_before i (trim line).
Proof.
  intros H He. apply loop_body_inv in H.
  destruct H as [(E & _ & _)|(_ & _ & -> & _)].
  - rewrite E in He. discriminate.
  - unfold level_after. rewrite He.
    destruct (test hasOpener (trim line)); reflexivity.
Qed.

Lemma loop_body_end_keeps_level_witness :
  2%Z = level_before 2 (trim (js "  if a then b() end")).
Proof.
  apply (loop_body_end_keeps_level maxStringLength 2 [] (js "  if a then b() end")
           2 (js "    if a then b() end" ++ [LF]));
    reflexivity.
Defined.

(** *** X16 *)



(** *** X17 *)

Lemma replace_semicolons n : forall o,
  replace_from semicolon (fun _ => js ";" ++ [LF]) 0 o (repeat 59%N n) =
  concat (repeat [59%N; LF] n).
Proof.
  induction n as [|n IH]; intros o; [apply replace_from_nil; reflexivity|].
  cbn [repeat concat].
  assert (He : exec semicolon o (59%N :: repeat 59%N n) =
               Some (MState (Some 59%N) (repeat 59%N n) [])).
  { unfold exec, semicolon. rewrite run_ch_last, N.eqb_refl. reflexivity. }
  destruct (replace_from_match semicolon (fun _ => js ";" ++ [LF]) o _ _ eq_refl He)
    as (l & _ & _ & _ & ->).
  cbn [rest]. rewrite IH. reflexivity.
Qed.

Lemma length_semicolons n : length (concat (repeat [59%N; LF] n)) = 2 * n.
Proof. induction n as [|n IH]; [reflexivity|]. cbn [repeat concat app length]. lia. Qed.

(** X17: the handler of [beautifyCode] is reached: on a text of [n]
    semicolons, twice [n] being more than the longest string, the first
    [replace] of the [try] block throws, and the input comes back
    unchanged. *)
Theorem beautifyCode_falls_back (maxLength : N) (n : nat) :
  (maxLength < 2 * N.of_nat n)%N ->
  beautify_try maxLength (repeat 59%N n) = Throw RangeError /\
  beautifyCode_within maxLength (repeat 59%N n) = Normal (repeat 59%N n).
Proof.
  intros Hn.
  assert (Ht : beautify_try maxLength (repeat 59%N n) = Throw RangeError).
  { unfold beautify_try, processedCode, replace_str. cbv zeta.
    destruct n as [|n]; [lia|].
    assert (Hs : test semicolon (repeat 59%N (S n)) = true).
    { apply test_from_true. exists [], (repeat 59%N (S n)).
      split; [reflexivity|]. cbn [repeat after_text fold_left].
      unfold exec, semicolon. rewrite run_ch_last, N.eqb_refl. discriminate. }
    rewrite Hs. unfold replace. rewrite replace_semicolons.
    unfold alloc. rewrite length_semicolons.
    destruct (N.leb_spec (N.of_nat (2 * S n)) maxLength) as [H|H]; [lia|].
    reflexivity. }
  split; [exact Ht|].
  unfold beautifyCode_within. rewrite Ht. reflexivity.
Qed.

Lemma beautifyCode_falls_back_witness :
  beautify_try 5 (repeat 59%N 3) = Throw RangeError /\
  beautifyCode_within 5 (repeat 59%N 3) = Normal (repeat 59%N 3).
Proof. apply (beautifyCode_falls_back 5 3). reflexivity. Defined.
